(** * WeatherFlow service worker: request interception and caching

    A shallow embedding of the service worker script (the install,
    activate and fetch handlers and the three request strategies) and the
    properties of its caching layer.

    Conventions of the model.
    - JavaScript numbers that hold millisecond timestamps are integers far
      below 2^53, so they are modelled as [Z] and arithmetic is exact.
    - [CacheStorage] is the ordered list of named caches ([caches.keys()]
      order, which is also the search order of [caches.match]); a [Cache]
      is a finite map from the request URL to the stored response.
    - Promises are run to completion in program order: [await e] is the
      sequencing of the monad below, a rejected promise is [Throw], and
      [try { } catch { }] is [try_catch].  A [cache.put] or [cache.delete]
      that the script does not await is applied at the point of the call;
      a [put] that the cache rejects stores nothing, and nobody sees the
      rejection.
    - The network and the clock are read-only inputs of a run ([Env]). *)

From Stdlib Require Import ZArith Ascii DecimalString DecimalPos DecimalZ.
From stdpp Require Import gmap strings list fin_maps.

Local Open Scope Z_scope.

(** ** Strings *)

Module Str.

(** [startsWith s p]: [p] is a prefix of [s]. *)
Fixpoint startsWith (s p : string) {struct p} : bool :=
  match p, s with
  | EmptyString, _ => true
  | String b p', String a s' => if Ascii.eqb a b then startsWith s' p' else false
  | String _ _, EmptyString => false
  end.

(** [includes s p] is [s.includes(p)]: [p] occurs somewhere in [s]. *)
Fixpoint includes (s p : string) : bool :=
  startsWith s p ||
  match s with
  | EmptyString => false
  | String _ s' => includes s' p
  end.

(** The propositional reading of [includes]. *)
Definition occurs_in (p s : string) : Prop :=
  exists pre post, s = pre +:+ p +:+ post.

(** The one-character string holding a double quote (code 34). *)
Definition dq : string := String "034"%char EmptyString.

End Str.

(** ** Numbers and their decimal text *)

Module Num.

(** [Number.prototype.toString] on an integer: decimal digits, a leading
    minus sign for negative numbers. *)
Definition toString (z : Z) : string := NilZero.string_of_int (Z.to_int z).

Definition is_space (a : ascii) : bool :=
  let n := nat_of_ascii a in
  (n =? 32)%nat || ((9 <=? n)%nat && (n <=? 13)%nat).

Fixpoint skip_spaces (s : string) : string :=
  match s with
  | String a s' => if is_space a then skip_spaces s' else s
  | EmptyString => s
  end.

(** The longest prefix of decimal digits, as a [Decimal.uint]. *)
Fixpoint take_digits (s : string) : Decimal.uint :=
  match s with
  | String a s' =>
      match a with
      | "0" => Decimal.D0 (take_digits s') | "1" => Decimal.D1 (take_digits s')
      | "2" => Decimal.D2 (take_digits s') | "3" => Decimal.D3 (take_digits s')
      | "4" => Decimal.D4 (take_digits s') | "5" => Decimal.D5 (take_digits s')
      | "6" => Decimal.D6 (take_digits s') | "7" => Decimal.D7 (take_digits s')
      | "8" => Decimal.D8 (take_digits s') | "9" => Decimal.D9 (take_digits s')
      | _ => Decimal.Nil
      end%char
  | EmptyString => Decimal.Nil
  end.

(** The longest prefix of hexadecimal digits, either case. *)
Fixpoint take_hex_digits (s : string) : Hexadecimal.uint :=
  match s with
  | String a s' =>
      let r := take_hex_digits s' in
      match a with
      | "0" => Hexadecimal.D0 r | "1" => Hexadecimal.D1 r
      | "2" => Hexadecimal.D2 r | "3" => Hexadecimal.D3 r
      | "4" => Hexadecimal.D4 r | "5" => Hexadecimal.D5 r
      | "6" => Hexadecimal.D6 r | "7" => Hexadecimal.D7 r
      | "8" => Hexadecimal.D8 r | "9" => Hexadecimal.D9 r
      | "a" | "A" => Hexadecimal.Da r | "b" | "B" => Hexadecimal.Db r
      | "c" | "C" => Hexadecimal.Dc r | "d" | "D" => Hexadecimal.Dd r
      | "e" | "E" => Hexadecimal.De r | "f" | "F" => Hexadecimal.Df r
      | _ => Hexadecimal.Nil
      end%char
  | EmptyString => Hexadecimal.Nil
  end.

(** Magnitude of the digits that follow the optional sign; [None] is NaN. *)
Definition parse_magnitude (s : string) : option Z :=
  if Str.startsWith s "0x" || Str.startsWith s "0X" then
    match s with
    | String _ (String _ rest) =>
        match take_hex_digits rest with
        | Hexadecimal.Nil => None
        | h => Some (Z.of_hex_uint h)
        end
    | _ => None
    end
  else
    match take_digits s with
    | Decimal.Nil => None
    | d => Some (Z.of_uint d)
    end.

(** [parseInt(s)] without a radix: leading white space is skipped, then an
    optional sign, then the digits (hexadecimal after [0x]); anything after
    the digits is ignored; [None] stands for [NaN]. *)
Definition parseInt (s : string) : option Z :=
  match skip_spaces s with
  | String "-" s' => Z.opp <$> parse_magnitude s'
  | String "+" s' => parse_magnitude s'
  | s' => parse_magnitude s'
  end.

End Num.

(** ** Responses, requests, caches *)

(** A [Response] as far as the script looks at it.  Header names are the
    lower-case names under which the [Headers] object stores them. *)
Record Response := mkResponse {
  status : Z;
  statusText : string;
  headers : gmap string string;
  body : string
}.

#[global] Instance Response_eq_dec : EqDecision Response.
Proof. solve_decision. Defined.

(** [response.ok]: the status is in the range 200-299. *)
Definition ok (r : Response) : bool :=
  (200 <=? status r) && (status r <=? 299).

(** A [Request]; [hostname] is [new URL(request.url).hostname] and [accept]
    is [request.headers.get('accept')]. *)
Record Request := mkRequest {
  method : string;
  url : string;
  hostname : string;
  accept : option string
}.

(** What a run does to the outside world, in program order. *)
Inductive Event :=
| EFetch (u : string)
| EOpen (name : string)
| EMatch (name u : string)
| EMatchAll (u : string)
| EPut (name u : string)
| EDelete (name u : string)
| EKeys
| ECachesDelete (name : string)
| ESkipWaiting
| EClaim
| ELog (msg : string).

Record World := mkWorld {
  caches : list (string * gmap string Response);
  trace : list Event
}.

(** The network answers a URL with a response, or fails ([None]); [now] is
    [Date.now()]. *)
Record Env := mkEnv {
  net : string -> option Response;
  now : Z
}.

Inductive JsError :=
| TypeError (msg : string)
| Error (msg : string)
| ReferenceError (ident : string).

Inductive Outcome (A : Type) :=
| Ok (a : A)
| Throw (e : JsError).
Arguments Ok {A} a.
Arguments Throw {A} e.

(** ** The monad of handler code: reads [Env], updates [World], may throw *)

Definition M (A : Type) : Type := Env -> World -> Outcome A * World.

Definition ret {A} (a : A) : M A := fun _ w => (Ok a, w).

Definition bind {A B} (m : M A) (k : A -> M B) : M B :=
  fun env w =>
    match m env w with
    | (Ok a, w') => k a env w'
    | (Throw e, w') => (Throw e, w')
    end.

Definition throw {A} (e : JsError) : M A := fun _ w => (Throw e, w).

Definition try_catch {A} (m : M A) (handler : JsError -> M A) : M A :=
  fun env w =>
    match m env w with
    | (Ok a, w') => (Ok a, w')
    | (Throw e, w') => handler e env w'
    end.

Declare Scope js_scope.
Delimit Scope js_scope with js.
Notation "'await' x ':=' m 'in' k" := (bind m (fun x => k))
  (at level 10, x name, m at level 100, k at level 200) : js_scope.
Notation "'run' m 'in' k" := (bind m (fun _ => k))
  (at level 10, m at level 100, k at level 200) : js_scope.
Local Open Scope js_scope.

Definition emit (e : Event) : M unit :=
  fun _ w => (Ok tt, mkWorld (caches w) (trace w ++ [e])).

Definition date_now : M Z := fun env w => (Ok (now env), w).

Definition console_log (msg : string) : M unit := emit (ELog msg).

(** ** The platform: [fetch], [CacheStorage], [Cache] *)

Module Store.

(** The cache called [name], if there is one. *)
Fixpoint find (name : string) (cs : list (string * gmap string Response))
  : option (gmap string Response) :=
  match cs with
  | [] => None
  | (n, c) :: cs' => if String.eqb n name then Some c else find name cs'
  end.

(** Replace the contents of the cache called [name]; nothing changes when
    there is no such cache. *)
Fixpoint update (name : string) (f : gmap string Response -> gmap string Response)
    (cs : list (string * gmap string Response))
  : list (string * gmap string Response) :=
  match cs with
  | [] => []
  | (n, c) :: cs' =>
      if String.eqb n name then (n, f c) :: cs' else (n, c) :: update name f cs'
  end.

(** [caches.open(name)]: an existing cache is kept, a new one is created
    empty, after the existing ones. *)
Definition open (name : string) (cs : list (string * gmap string Response))
  : list (string * gmap string Response) :=
  match find name cs with
  | Some _ => cs
  | None => cs ++ [(name, ∅)]
  end.

(** [caches.delete(name)]. *)
Definition remove (name : string) (cs : list (string * gmap string Response))
  : list (string * gmap string Response) :=
  List.filter (fun nc => negb (String.eqb nc.1 name)) cs.

(** [caches.match(request)]: the first hit, caches taken in creation
    order. *)
Fixpoint match_all (u : string) (cs : list (string * gmap string Response))
  : option Response :=
  match cs with
  | [] => None
  | (_, c) :: cs' =>
      match c !! u with
      | Some r => Some r
      | None => match_all u cs'
      end
  end.

(** The names, in creation order. *)
Definition keys (cs : list (string * gmap string Response)) : list string :=
  map fst cs.

Definition is_blank (a : ascii) : bool :=
  Ascii.eqb a " " || Ascii.eqb a "009".

Fixpoint only_blanks (s : string) : bool :=
  match s with
  | EmptyString => true
  | String a s' => is_blank a && only_blanks s'
  end.

(** A field value is the wildcard: a star with nothing but blanks around
    it. *)
Fixpoint is_wildcard (field : string) : bool :=
  match field with
  | EmptyString => false
  | String a rest =>
      if is_blank a then is_wildcard rest
      else Ascii.eqb a "*" && only_blanks rest
  end.

(** The field values of a comma-separated header value. *)
Fixpoint fields (v : string) : list string :=
  match v with
  | EmptyString => [EmptyString]
  | String a v' =>
      if Ascii.eqb a "," then EmptyString :: fields v'
      else match fields v' with
           | f :: fs => String a f :: fs
           | [] => [String a EmptyString]
           end
  end.

(** The response has a [Vary] header with the field value [*]. *)
Definition varies_on_everything (r : Response) : bool :=
  match headers r !! "vary" with
  | Some v => existsb is_wildcard (fields v)
  | None => false
  end.

(** The responses [cache.put] stores.  It rejects a response with status
    206 and one whose [Vary] header has the field value [*], and stores
    nothing then.  (It also rejects requests that are not GET over http
    or https; the handlers only put such requests.) *)
Definition accepts (r : Response) : bool :=
  negb (status r =? 206) && negb (varies_on_everything r).

(** The storage after [cache.put(request, r)] on the cache called
    [name]: last write wins when the response is accepted, nothing
    changes when it is rejected. *)
Definition put (name request : string) (r : Response)
    (cs : list (string * gmap string Response))
  : list (string * gmap string Response) :=
  if accepts r then update name (fun c => <[request := r]> c) cs else cs.

End Store.

Definition set_caches (f : list (string * gmap string Response) ->
                           list (string * gmap string Response)) : M unit :=
  fun _ w => (Ok tt, mkWorld (f (caches w)) (trace w)).

Definition get_caches : M (list (string * gmap string Response)) :=
  fun _ w => (Ok (caches w), w).

(** [fetch(request)]: resolves with whatever response the network gives,
    2xx or not; rejects when the network fails. *)
Definition fetch (request : string) : M Response :=
  run emit (EFetch request) in
  fun env w =>
    match net env request with
    | Some r => (Ok r, w)
    | None => (Throw (TypeError "Failed to fetch"), w)
    end.

(** [caches.open(name)]; the handle of a cache is its name. *)
Definition caches_open (name : string) : M string :=
  run emit (EOpen name) in
  run set_caches (Store.open name) in
  ret name.

(** [cache.match(request)] on one cache. *)
Definition cache_match (cache : string) (request : string) : M (option Response) :=
  run emit (EMatch cache request) in
  await cs := get_caches in
  ret (Store.find cache cs ≫= fun c => c !! request).

(** [cache.put(request, response)] as the script calls it, without
    waiting for the promise: an accepted response is stored, last write
    wins; a rejected one leaves the storage alone and the rejection is
    seen by nobody. *)
Definition cache_put (cache : string) (request : string) (r : Response) : M unit :=
  run emit (EPut cache request) in
  set_caches (Store.put cache request r).

(** [cache.delete(request)]. *)
Definition cache_delete (cache : string) (request : string) : M unit :=
  run emit (EDelete cache request) in
  set_caches (Store.update cache (fun c => delete request c)).

(** [caches.match(request)] on the whole storage. *)
Definition caches_match (request : string) : M (option Response) :=
  run emit (EMatchAll request) in
  await cs := get_caches in
  ret (Store.match_all request cs).

(** [caches.keys()]. *)
Definition caches_keys : M (list string) :=
  run emit EKeys in
  await cs := get_caches in
  ret (Store.keys cs).

(** [caches.delete(name)]. *)
Definition caches_delete (name : string) : M unit :=
  run emit (ECachesDelete name) in
  set_caches (Store.remove name).

Fixpoint for_each {A} (f : A -> M unit) (l : list A) : M unit :=
  match l with
  | [] => ret tt
  | x :: l' => run f x in for_each f l'
  end.

(** What follows [://] in a URL, if it has that marker. *)
Fixpoint after_marker (u : string) : option string :=
  match u with
  | String a u' =>
      if Str.startsWith u "://" then
        match u' with
        | String _ (String _ rest) => Some rest
        | _ => None
        end
      else after_marker u'
  | EmptyString => None
  end.

(** The URL of the request made from the string [u] by a worker whose
    script lives on [origin], for the shapes of URL the manifest has: a
    string that starts with a slash is a path on that origin; an absolute
    URL that ends with its host gets the path [/]; any other absolute URL
    is kept. *)
Definition resolve (origin u : string) : string :=
  if Str.startsWith u "/" then origin +:+ u
  else match after_marker u with
       | Some rest => if Str.includes rest "/" then u else u +:+ "/"
       | None => u
       end.

(** The answers [cache.addAll] takes: 2xx, and acceptable to
    [cache.put]. *)
Definition addable (r : Response) : bool := ok r && Store.accepts r.

(** [cache.addAll(urls)] in a worker on [origin]: a request is made from
    every string and fetched; when one fetch fails or its answer is not
    addable the whole call rejects and nothing is stored; otherwise every
    response is stored under the URL of its request. *)
Definition cache_addAll (origin cache : string) (urls : list string) : M unit :=
  let requests := map (resolve origin) urls in
  run for_each (fun u => emit (EFetch u)) requests in
  fun env w =>
    let answers := map (fun u => (u, net env u)) requests in
    if forallb (fun a => match a.2 with Some r => addable r | None => false end)
         answers
    then
      for_each (fun a => match a.2 with
                         | Some r => cache_put cache a.1 r
                         | None => ret tt
                         end) answers env w
    else (Throw (TypeError "Request failed"), w).

Definition skipWaiting : M unit := emit ESkipWaiting.
Definition clients_claim : M unit := emit EClaim.

(** ** The service worker script *)

Definition CACHE_NAME : string := "weatherflow-v1.0.0".

Definition STATIC_CACHE_URLS : list string :=
  [ "/";
    "/index.html";
    "/styles.css";
    "/js/main.js";
    "/js/api.js";
    "/js/state.js";
    "/js/ui.js";
    "/js/charts.js";
    "/manifest.webmanifest";
    "https://cdn.tailwindcss.com";
    "https://cdn.jsdelivr.net/npm/chart.js";
    "https://cdn.jsdelivr.net/npm/dayjs@1/dayjs.min.js";
    "https://cdn.jsdelivr.net/npm/dayjs@1/plugin/relativeTime.js" ].

Definition API_CACHE_DURATION : Z := 10 * 60 * 1000.
Definition STATIC_CACHE_DURATION : Z := 24 * 60 * 60 * 1000.

Definition API_CACHE : string := CACHE_NAME +:+ "-api".
Definition DYNAMIC_CACHE : string := CACHE_NAME +:+ "-dynamic".

Definition TIMESTAMP_HEADER : string := "sw-cache-timestamp".

(** [new Response(r.body, { status, statusText, headers: { ...r.headers,
    'sw-cache-timestamp': Date.now().toString() } })]. *)
Definition with_timestamp (r : Response) (t : Z) : Response :=
  {| status := status r;
     statusText := statusText r;
     headers := <[TIMESTAMP_HEADER := Num.toString t]> (headers r);
     body := body r |}.

(** The number [Date.now() - parseInt(cacheTimestamp)] is compared with a
    duration; a comparison with [NaN] is false. *)
Definition age_exceeds (t : Z) (cacheTimestamp : string) (duration : Z) : bool :=
  match Num.parseInt cacheTimestamp with
  | Some stored => duration <? t - stored
  | None => false
  end.

(** A string is truthy when it is not empty; [null] is falsy. *)
Definition truthy (v : option string) : bool :=
  match v with
  | Some s => negb (String.eqb s "")
  | None => false
  end.

(** [cacheTimestamp && (Date.now() - parseInt(cacheTimestamp)) >
    API_CACHE_DURATION], read as a condition. *)
Definition isExpired (cacheTimestamp : option string) (t : Z) : bool :=
  match cacheTimestamp with
  | Some ts => truthy cacheTimestamp && age_exceeds t ts API_CACHE_DURATION
  | None => false
  end.

(** [!cacheTimestamp || (Date.now() - parseInt(cacheTimestamp)) >
    STATIC_CACHE_DURATION]. *)
Definition shouldUpdate (cacheTimestamp : option string) (t : Z) : bool :=
  match cacheTimestamp with
  | Some ts => negb (truthy cacheTimestamp) || age_exceeds t ts STATIC_CACHE_DURATION
  | None => true
  end.

(** [JSON.stringify({ error: 'Network unavailable and no cached data',
    offline: true })]. *)
Definition OFFLINE_JSON : string :=
  "{" +:+ Str.dq +:+ "error" +:+ Str.dq +:+ ":" +:+ Str.dq +:+
  "Network unavailable and no cached data" +:+ Str.dq +:+ "," +:+
  Str.dq +:+ "offline" +:+ Str.dq +:+ ":true}".

(** The response synthesized for an api request that nothing can serve. *)
Definition api_offline_response : Response :=
  {| status := 503;
     statusText := "";
     headers := {[ "content-type" := "application/json" ]};
     body := OFFLINE_JSON |}.

(** [new Response('Service Unavailable', { status: 503 })]; a text body
    gets the default content type. *)
Definition service_unavailable : Response :=
  {| status := 503;
     statusText := "";
     headers := {[ "content-type" := "text/plain;charset=UTF-8" ]};
     body := "Service Unavailable" |}.

Definition OFFLINE_HTML : string :=
  "<!DOCTYPE html>
        <html>
        <head>
          <title>Offline - WeatherFlow</title>
          <meta name=" +:+ Str.dq +:+ "viewport" +:+ Str.dq +:+ " content=" +:+
  Str.dq +:+ "width=device-width, initial-scale=1.0" +:+ Str.dq +:+ ">
          <style>
            body { font-family: system-ui; text-align: center; padding: 50px; }
            h1 { color: #3B82F6; }
          </style>
        </head>
        <body>
          <h1>You're offline</h1>
          <p>WeatherFlow requires an internet connection to fetch weather data.</p>
          <button onclick=" +:+ Str.dq +:+ "location.reload()" +:+ Str.dq +:+
  ">Try Again</button>
        </body>
        </html>".

(** The offline page; no status is given, so it is 200. *)
Definition offline_page : Response :=
  {| status := 200;
     statusText := "";
     headers := {[ "content-type" := "text/html" ]};
     body := OFFLINE_HTML |}.

(** *** install *)

(** The promise handed to [event.waitUntil] by the install handler:
    [open.then(addAll).then(skipWaiting).catch(log)]; [origin] is the
    origin the worker script is served from. *)
Definition install_promise (origin : string) : M unit :=
  try_catch
    (await cache := caches_open CACHE_NAME in
     run console_log "Service Worker: Caching static assets" in
     run cache_addAll origin cache STATIC_CACHE_URLS in
     skipWaiting)
    (fun error => console_log "Service Worker: Install failed").

(** The install step succeeds exactly when the promise given to
    [event.waitUntil] is fulfilled. *)
Inductive InstallResult := Installed | InstallFailed.

Definition on_install (origin : string) (env : Env) (w : World)
  : InstallResult * World :=
  match (run console_log "Service Worker: Installing..." in
         install_promise origin) env w with
  | (Ok _, w') => (Installed, w')
  | (Throw _, w') => (InstallFailed, w')
  end.

(** *** activate *)

Definition on_activate : M unit :=
  run console_log "Service Worker: Activating..." in
  await cacheNames := caches_keys in
  run for_each
        (fun cacheName =>
           if negb (String.eqb cacheName CACHE_NAME)
           then run console_log "Service Worker: Deleting old cache" in
                caches_delete cacheName
           else ret tt)
        cacheNames in
  clients_claim.

(** *** The three strategies *)

(** Network first, the api cache as fallback. *)
Definition handleApiRequest (request : Request) : M Response :=
  let cacheName := API_CACHE in
  try_catch
    (await networkResponse := fetch (url request) in
     if ok networkResponse then
       await cache := caches_open cacheName in
       await t := date_now in
       let responseWithTimestamp := with_timestamp networkResponse t in
       run cache_put cache (url request) responseWithTimestamp in
       ret networkResponse
     else throw (Error "Network response not ok"))
    (fun error =>
       run console_log "Service Worker: Network failed, trying cache for" in
       await cache := caches_open cacheName in
       await cachedResponse := cache_match cache (url request) in
       await served :=
         match cachedResponse with
         | Some c =>
             let cacheTimestamp := headers c !! TIMESTAMP_HEADER in
             await t := date_now in
             if negb (isExpired cacheTimestamp t) then
               run console_log "Service Worker: Serving from cache" in
               ret (Some c)
             else
               run cache_delete cache (url request) in
               ret None
         | None => ret None
         end in
       match served with
       | Some c => ret c
       | None => ret api_offline_response
       end).

(** Refresh of one static entry. *)
Definition updateStaticCache (request : Request) : M unit :=
  try_catch
    (await networkResponse := fetch (url request) in
     if ok networkResponse then
       await cache := caches_open CACHE_NAME in
       await t := date_now in
       let responseWithTimestamp := with_timestamp networkResponse t in
       run cache_put cache (url request) responseWithTimestamp in
       console_log "Service Worker: Updated cache for"
     else ret tt)
    (fun error => console_log "Service Worker: Failed to update cache for").

(** [event.waitUntil(p)] as written inside [handleStaticRequest].  That
    function has the single parameter [request], the script declares no
    [event] at top level and a worker's global scope has no [event]
    property, so evaluating the identifier throws a [ReferenceError]; this
    happens before the argument [p] is evaluated, which is therefore never
    started. *)
Definition event_waitUntil_unbound {A} (p : M A) : M unit :=
  throw (ReferenceError "event").

(** Cache first; the network when nothing is cached. *)
Definition handleStaticRequest (request : Request) : M Response :=
  try_catch
    (await cachedResponse := caches_match (url request) in
     match cachedResponse with
     | Some c =>
         let cacheTimestamp := headers c !! TIMESTAMP_HEADER in
         await t := date_now in
         run (if shouldUpdate cacheTimestamp t
              then event_waitUntil_unbound (updateStaticCache request)
              else ret tt) in
         ret c
     | None =>
         await networkResponse := fetch (url request) in
         run (if ok networkResponse then
                await cache := caches_open CACHE_NAME in
                await t := date_now in
                let responseWithTimestamp := with_timestamp networkResponse t in
                cache_put cache (url request) responseWithTimestamp
              else ret tt) in
         ret networkResponse
     end)
    (fun error =>
       run console_log "Service Worker: Static request failed" in
       await cachedResponse := caches_match (url request) in
       match cachedResponse with
       | Some c => ret c
       | None =>
           if match accept request with
              | Some a => Str.includes a "text/html"
              | None => false
              end
           then ret offline_page
           else ret service_unavailable
       end).

(** Network first, any cache as fallback. *)
Definition handleDynamicRequest (request : Request) : M Response :=
  try_catch
    (await networkResponse := fetch (url request) in
     run (if ok networkResponse then
            await cache := caches_open DYNAMIC_CACHE in
            cache_put cache (url request) networkResponse
          else ret tt) in
     ret networkResponse)
    (fun error =>
       await cachedResponse := caches_match (url request) in
       match cachedResponse with
       | Some c => ret c
       | None => ret service_unavailable
       end).

(** *** fetch *)

Inductive RequestClass := api | static | dynamic.

Definition is_api_host (h : string) : bool :=
  Str.includes h "open-meteo.com" || Str.includes h "geocoding-api.open-meteo.com".

Definition is_static_url (u : string) : bool :=
  existsb (fun staticUrl => Str.includes u staticUrl) STATIC_CACHE_URLS.

(** The branch the fetch handler takes; [None] when it returns without
    calling [respondWith] (any method but GET). *)
Definition classify (request : Request) : option RequestClass :=
  if negb (String.eqb (method request) "GET") then None
  else if is_api_host (hostname request) then Some api
  else if is_static_url (url request) then Some static
  else Some dynamic.

Definition on_fetch (request : Request) : option (M Response) :=
  match classify request with
  | None => None
  | Some api => Some (handleApiRequest request)
  | Some static => Some (handleStaticRequest request)
  | Some dynamic => Some (handleDynamicRequest request)
  end.

(** ** Notions used to state the properties *)

(** The time at which an entry was stored, as the handlers read it back. *)
Definition storedAt (entry : Response) : option Z :=
  headers entry !! TIMESTAMP_HEADER ≫= Num.parseInt.

(** The entry of namespace [name] for [u]. *)
Definition entry_in (name u : string)
    (cs : list (string * gmap string Response)) : option Response :=
  Store.find name cs ≫= fun c => c !! u.

(** The namespaces that carry the version tag of this worker. *)
Definition version_namespaces : list string :=
  [CACHE_NAME; API_CACHE; DYNAMIC_CACHE].

(** The events a run added to the trace it started from. *)
Definition added (w w' : World) (evs : list Event) : Prop :=
  trace w' = trace w ++ evs.

Definition is_fetch (e : Event) : bool :=
  match e with EFetch _ => true | _ => false end.

Definition is_lookup (e : Event) : bool :=
  match e with EMatch _ _ | EMatchAll _ => true | _ => false end.

(** The network attempt failed: no answer, or an answer outside 2xx. *)
Definition network_failed (env : Env) (u : string) : Prop :=
  match net env u with
  | None => True
  | Some r => ok r = false
  end.

(** What the catch block of the api handler does, from the storage it
    finds: the response, the storage it leaves and the events after the
    failed fetch. *)
Definition api_fallback (request : Request) (t : Z)
    (cs : list (string * gmap string Response))
  : Response * list (string * gmap string Response) * list Event :=
  let opened := Store.open API_CACHE cs in
  let looked := [ELog "Service Worker: Network failed, trying cache for";
                 EOpen API_CACHE; EMatch API_CACHE (url request)] in
  match entry_in API_CACHE (url request) cs with
  | Some c =>
      if isExpired (headers c !! TIMESTAMP_HEADER) t
      then (api_offline_response,
            Store.update API_CACHE (fun m => delete (url request) m) opened,
            looked ++ [EDelete API_CACHE (url request)])
      else (c, opened, looked ++ [ELog "Service Worker: Serving from cache"])
  | None => (api_offline_response, opened, looked)
  end.

(** The request of every manifest entry is answered, with a response
    that [cache.addAll] takes. *)
Definition prefetch_ok (origin : string) (env : Env) : bool :=
  forallb (fun u => match net env u with Some r => addable r | None => false end)
    (map (resolve origin) STATIC_CACHE_URLS).

(** What the activate handler does with one cache name, on the storage and
    on the trace. *)
Definition sweep_step (cs : list (string * gmap string Response)) (cacheName : string)
  : list (string * gmap string Response) :=
  if negb (String.eqb cacheName CACHE_NAME) then Store.remove cacheName cs else cs.

Definition sweep_events (cacheNames : list string) : list Event :=
  flat_map (fun cacheName =>
              if negb (String.eqb cacheName CACHE_NAME)
              then [ELog "Service Worker: Deleting old cache";
                    ECachesDelete cacheName]
              else []) cacheNames.

(** The allow-list of data-provider hosts the fetch handler tests for. *)
Definition API_HOSTS : list string :=
  ["open-meteo.com"; "geocoding-api.open-meteo.com"].

(** Classification as the specification words it: the static class is
    membership of the request URL in the manifest. *)
Definition classify_spec (request : Request) : option RequestClass :=
  if negb (String.eqb (method request) "GET") then None
  else if is_api_host (hostname request) then Some api
  else if existsb (String.eqb (url request)) STATIC_CACHE_URLS then Some static
  else Some dynamic.

(** ** Sample inputs *)

Module Sample.

Definition HOUR : Z := 60 * 60 * 1000.

Definition fresh_body : Response :=
  {| status := 200; statusText := "OK";
     headers := {[ "content-type" := "text/css" ]}; body := "new body" |}.

Definition not_found : Response :=
  {| status := 404; statusText := "Not Found"; headers := ∅; body := "missing" |}.

(** An entry stored at time [t]. *)
Definition stored (b : string) (t : Z) : Response :=
  with_timestamp
    {| status := 200; statusText := "OK"; headers := ∅; body := b |} t.

Definition online (r : Response) (t : Z) : Env :=
  {| net := fun _ => Some r; now := t |}.

Definition offline (t : Z) : Env :=
  {| net := fun _ => None; now := t |}.

(** The origin the worker is served from. *)
Definition ORIGIN : string := "https://weatherflow.app".

(** Every URL answers except [/styles.css] of the worker's origin. *)
Definition one_asset_down (t : Z) : Env :=
  {| net := fun u => if String.eqb u "https://weatherflow.app/styles.css"
                     then None else Some fresh_body;
     now := t |}.

(** A 2xx answer that [cache.put] rejects. *)
Definition partial_content : Response :=
  {| status := 206; statusText := "Partial Content";
     headers := {[ "content-range" := "bytes 0-99/1000" ]}; body := "part" |}.

(** Another one: it varies on every request header. *)
Definition varying : Response :=
  {| status := 200; statusText := "OK";
     headers := {[ "vary" := "accept-encoding, *" ]}; body := "varies" |}.

Definition empty_world : World := {| caches := []; trace := [] |}.

Definition styles : Request :=
  {| method := "GET"; url := "https://weatherflow.app/styles.css";
     hostname := "weatherflow.app"; accept := Some "text/css,*/*;q=0.1" |}.

Definition forecast : Request :=
  {| method := "GET";
     url := "https://api.open-meteo.com/v1/forecast?latitude=52.52";
     hostname := "api.open-meteo.com"; accept := Some "application/json" |}.

Definition avatar : Request :=
  {| method := "GET"; url := "https://images.example.org/avatar.png";
     hostname := "images.example.org"; accept := Some "image/png" |}.

(** A request whose URL holds no manifest entry (no slash at all). *)
Definition blank : Request :=
  {| method := "GET"; url := "about:blank"; hostname := ""; accept := None |}.

(** The static namespace holds [/styles.css], stored at time 0. *)
Definition with_static_entry : World :=
  {| caches := [(CACHE_NAME, {[ url styles := stored "old body" 0 ]})];
     trace := [] |}.

(** The api namespace holds the forecast, stored at time [t]. *)
Definition with_api_entry (t : Z) : World :=
  {| caches := [(CACHE_NAME, ∅); (API_CACHE, {[ url forecast := stored "18C" t ]})];
     trace := [] |}.

(** Only the api namespace holds an entry for the avatar URL. *)
Definition avatar_in_api_only : World :=
  {| caches := [(CACHE_NAME, ∅); (API_CACHE, {[ url avatar := stored "png" 0 ]})];
     trace := [] |}.

(** Only the dynamic namespace holds an entry for the forecast URL. *)
Definition forecast_in_dynamic_only : World :=
  {| caches := [(CACHE_NAME, ∅); (API_CACHE, ∅);
                (DYNAMIC_CACHE, {[ url forecast := stored "18C" 0 ]})];
     trace := [] |}.

(** Storage left by an earlier worker: an old version, and the static and
    api namespaces of this version. *)
Definition before_activation : World :=
  {| caches := [("weatherflow-v0.9.0", ∅);
                (CACHE_NAME, ∅);
                (API_CACHE, {[ url forecast := stored "18C" 0 ]})];
     trace := [] |}.

End Sample.

(** ** Further notions *)

(** Every entry of the api namespace carries a timestamp that reads back
    as a number. *)
Definition api_entries_stamped (cs : list (string * gmap string Response)) : Prop :=
  ∀ u entry, entry_in API_CACHE u cs = Some entry → is_Some (storedAt entry).

(** The storage a handler run leaves. *)
Definition caches_after {A} (m : M A) (env : Env) (w : World)
  : list (string * gmap string Response) :=
  caches (m env w).2.

(** The response a handler run gives, [None] when it throws. *)
Definition response_of (m : M Response) (env : Env) (w : World) : option Response :=
  match (m env w).1 with
  | Ok r => Some r
  | Throw _ => None
  end.

(** The storages the script can produce: it starts with none and each
    listener run, for any request, network and clock, leads from one to
    the next. *)
Inductive reachable : list (string * gmap string Response) → Prop :=
| reach_start : reachable []
| reach_install origin env w :
    reachable (caches w) → reachable (caches (on_install origin env w).2)
| reach_activate env w :
    reachable (caches w) → reachable (caches_after on_activate env w)
| reach_api request env w :
    reachable (caches w) →
    reachable (caches_after (handleApiRequest request) env w)
| reach_static request env w :
    reachable (caches w) →
    reachable (caches_after (handleStaticRequest request) env w)
| reach_dynamic request env w :
    reachable (caches w) →
    reachable (caches_after (handleDynamicRequest request) env w).

(** What [cache.addAll] stores, one answer after the other. *)
Definition store_answer (cache : string)
    (cs : list (string * gmap string Response)) (a : string * option Response)
  : list (string * gmap string Response) :=
  match a.2 with
  | Some r => Store.put cache a.1 r cs
  | None => cs
  end.

Definition put_events (cache : string) (answers : list (string * option Response))
  : list Event :=
  flat_map (fun a => match a.2 with
                     | Some _ => [EPut cache a.1]
                     | None => []
                     end) answers.

(** The storage holds each name once and only names of this version. *)
Definition own_namespaces_only (cs : list (string * gmap string Response)) : Prop :=
  NoDup (Store.keys cs) ∧ ∀ n, In n (Store.keys cs) → In n version_namespaces.

(** ** Proof automation for handler runs *)

Ltac js_unfold :=
  unfold try_catch, bind, ret, throw, fetch, caches_open, cache_match,
    cache_put, cache_delete, caches_match, caches_keys, caches_delete,
    console_log, emit, date_now, set_caches, get_caches,
    event_waitUntil_unbound, skipWaiting, clients_claim in *.

Ltac js_trace := cbn; rewrite <- ?app_assoc; cbn.

(** * Properties *)

(** ** Strings and numbers *)

Lemma append_cons (a : ascii) (s t : string) :
  String a s +:+ t = String a (s +:+ t).
Proof. reflexivity. Qed.

Lemma append_nil (t : string) : "" +:+ t = t.
Proof. reflexivity. Qed.

Lemma append_assoc (s t u : string) : (s +:+ t) +:+ u = s +:+ t +:+ u.
Proof.
  induction s as [| a s IH]; [reflexivity |].
  rewrite !append_cons. congruence.
Qed.

Lemma startsWith_spec (s p : string) :
  Str.startsWith s p = true ↔ ∃ post, s = p +:+ post.
Proof.
  revert s. induction p as [| b p IH]; intros s; simpl.
  - split; [intros _; exists s; reflexivity | reflexivity].
  - destruct s as [| a s].
    + split; [discriminate | intros [post H]; discriminate].
    + destruct (Ascii.eqb_spec a b) as [-> | Hne].
      * rewrite IH. split; intros [post H]; exists post;
          rewrite append_cons in *; congruence.
      * split; [discriminate |].
        intros [post H]. rewrite append_cons in H. congruence.
Qed.

Lemma includes_spec (s p : string) :
  Str.includes s p = true ↔ Str.occurs_in p s.
Proof.
  unfold Str.occurs_in. induction s as [| a s IH]; simpl.
  - rewrite orb_false_r, startsWith_spec. split.
    + intros [post H]. exists "", post. exact H.
    + intros [pre [post H]]. destruct pre; [exists post; exact H |].
      discriminate.
  - rewrite orb_true_iff, startsWith_spec, IH. split.
    + intros [[post H] | [pre [post H]]].
      * exists "", post. exact H.
      * exists (String a pre), post. rewrite append_cons. congruence.
    + intros [pre [post H]]. destruct pre as [| a' pre].
      * left. exists post. exact H.
      * right. exists pre, post. rewrite append_cons in H. congruence.
Qed.

Lemma occurs_in_trans (p q s : string) :
  Str.occurs_in p q → Str.occurs_in q s → Str.occurs_in p s.
Proof.
  intros [a [b ->]] [c [d ->]]. exists (c +:+ a), (b +:+ d).
  rewrite !append_assoc. reflexivity.
Qed.

Lemma take_digits_string_of_uint (d : Decimal.uint) :
  Num.take_digits (NilEmpty.string_of_uint d) = d.
Proof. induction d; simpl; congruence. Qed.

Lemma parse_magnitude_digits (d : Decimal.uint) :
  d ≠ Decimal.Nil →
  Num.parse_magnitude (NilEmpty.string_of_uint d) = Some (Z.of_uint d).
Proof.
  intros Hd. unfold Num.parse_magnitude.
  assert (Hx : Str.startsWith (NilEmpty.string_of_uint d) "0x"
               || Str.startsWith (NilEmpty.string_of_uint d) "0X" = false).
  { destruct d as [| d | d | d | d | d | d | d | d | d | d];
      try reflexivity; destruct d; reflexivity. }
  rewrite Hx, take_digits_string_of_uint.
  destruct d; congruence.
Qed.

Lemma parseInt_digits (d : Decimal.uint) :
  d ≠ Decimal.Nil →
  Num.parseInt (NilEmpty.string_of_uint d) = Some (Z.of_uint d).
Proof.
  intros Hd. rewrite <- (parse_magnitude_digits d Hd).
  destruct d; try congruence; reflexivity.
Qed.

Lemma string_of_uint_nonnil (d : Decimal.uint) :
  d ≠ Decimal.Nil → NilZero.string_of_uint d = NilEmpty.string_of_uint d.
Proof. destruct d; intros H; [congruence | reflexivity ..]. Qed.

(** Reading back a printed number gives the number. *)
Lemma parseInt_toString (z : Z) : Num.parseInt (Num.toString z) = Some z.
Proof.
  destruct z as [| p | p]; [reflexivity | |];
    pose proof (Unsigned.to_uint_nonnil p) as Hn;
    unfold Num.toString; simpl;
    rewrite string_of_uint_nonnil by exact Hn.
  - rewrite parseInt_digits by exact Hn.
    unfold Z.of_uint. rewrite Unsigned.of_to. reflexivity.
  - unfold Num.parseInt. simpl.
    rewrite parse_magnitude_digits by exact Hn. simpl.
    unfold Z.of_uint. rewrite Unsigned.of_to. reflexivity.
Qed.

Lemma parseInt_empty : Num.parseInt "" = None.
Proof. reflexivity. Qed.

Lemma storedAt_with_timestamp (r : Response) (t : Z) :
  storedAt (with_timestamp r t) = Some t.
Proof.
  unfold storedAt, with_timestamp. simpl.
  rewrite lookup_insert_eq. simpl. apply parseInt_toString.
Qed.

Lemma storedAt_truthy (entry : Response) (t : Z) :
  storedAt entry = Some t →
  ∃ ts, headers entry !! TIMESTAMP_HEADER = Some ts
        ∧ Num.parseInt ts = Some t ∧ truthy (Some ts) = true.
Proof.
  unfold storedAt. destruct (headers entry !! TIMESTAMP_HEADER) as [ts |];
    simpl; [| discriminate].
  intros H. exists ts. repeat split; [exact H |].
  destruct ts; [rewrite parseInt_empty in H; discriminate | reflexivity].
Qed.

(** ** The cache storage *)

Lemma find_open_same (name : string) (cs : list (string * gmap string Response)) :
  Store.find name (Store.open name cs) = Some (default ∅ (Store.find name cs)).
Proof.
  unfold Store.open. destruct (Store.find name cs) as [c |] eqn:E; [exact E |].
  simpl. induction cs as [| [n c] cs IH]; simpl in *.
  - rewrite String.eqb_refl. reflexivity.
  - destruct (String.eqb n name); [discriminate | auto].
Qed.

Lemma find_update_same (name : string) (f : gmap string Response → gmap string Response)
    (cs : list (string * gmap string Response)) :
  Store.find name (Store.update name f cs) = f <$> Store.find name cs.
Proof.
  induction cs as [| [n c] cs IH]; simpl; [reflexivity |].
  destruct (String.eqb n name) eqn:E; simpl; rewrite E; auto.
Qed.

Lemma entry_in_open (name u : string) (cs : list (string * gmap string Response)) :
  entry_in name u (Store.open name cs) = entry_in name u cs.
Proof.
  unfold entry_in. rewrite find_open_same.
  destruct (Store.find name cs); reflexivity.
Qed.


(** When every namespace that knows [u] holds the same response, that
    response is what [caches.match] returns. *)
Lemma match_all_unique (u name : string) (c : gmap string Response)
    (r : Response) (cs : list (string * gmap string Response)) :
  (name, c) ∈ cs → c !! u = Some r →
  (∀ n' c' r', (n', c') ∈ cs → c' !! u = Some r' → r' = r) →
  Store.match_all u cs = Some r.
Proof.
  intros Hin Hr Huniq. induction cs as [| [n c'] cs IH]; [inversion Hin |].
  simpl. destruct (c' !! u) as [r' |] eqn:E.
  - f_equal. apply (Huniq n c'); [left | exact E].
  - apply IH.
    + inversion Hin; subst; [congruence | assumption].
    + intros n' c'' r'' Hin' Hr'. apply (Huniq n' c''); [right |]; assumption.
Qed.

Lemma put_accepted (n k : string) (r : Response)
    (cs : list (string * gmap string Response)) :
  Store.accepts r = true →
  Store.put n k r cs = Store.update n (fun c => <[k := r]> c) cs.
Proof. intros H. unfold Store.put. rewrite H. reflexivity. Qed.

Lemma put_rejected (n k : string) (r : Response)
    (cs : list (string * gmap string Response)) :
  Store.accepts r = false → Store.put n k r cs = cs.
Proof. intros H. unfold Store.put. rewrite H. reflexivity. Qed.

(** The timestamp header does not change what [cache.put] makes of a
    response. *)
Lemma accepts_with_timestamp (r : Response) (t : Z) :
  Store.accepts (with_timestamp r t) = Store.accepts r.
Proof.
  unfold Store.accepts, Store.varies_on_everything, with_timestamp. cbn.
  rewrite lookup_insert_ne by discriminate. reflexivity.
Qed.

Lemma find_app_none (name : string) (cs ds : list (string * gmap string Response)) :
  Store.find name cs = None → Store.find name (cs ++ ds) = Store.find name ds.
Proof.
  induction cs as [| [n c] cs IH]; simpl; [reflexivity |].
  destruct (String.eqb n name); [discriminate | exact IH].
Qed.

Lemma find_app_some (name : string) (c : gmap string Response)
    (cs ds : list (string * gmap string Response)) :
  Store.find name cs = Some c → Store.find name (cs ++ ds) = Some c.
Proof.
  induction cs as [| [n c'] cs IH]; simpl; [discriminate |].
  destruct (String.eqb n name); [auto | exact IH].
Qed.

(** Opening a cache changes no entry of any namespace. *)
Lemma entry_in_open_any (name n u : string) (cs : list (string * gmap string Response)) :
  entry_in name u (Store.open n cs) = entry_in name u cs.
Proof.
  unfold Store.open. destruct (Store.find n cs) eqn:En; [reflexivity |].
  unfold entry_in. destruct (Store.find name cs) as [c |] eqn:E.
  - rewrite (find_app_some _ _ _ _ E). reflexivity.
  - rewrite (find_app_none _ _ _ E). simpl.
    destruct (String.eqb n name); reflexivity.
Qed.

Lemma find_update_other (name n : string)
    (f : gmap string Response → gmap string Response)
    (cs : list (string * gmap string Response)) :
  name ≠ n → Store.find name (Store.update n f cs) = Store.find name cs.
Proof.
  intros Hne. induction cs as [| [m c] cs IH]; simpl; [reflexivity |].
  destruct (String.eqb_spec m n) as [-> | Hm]; simpl.
  - destruct (String.eqb_spec n name); [congruence | reflexivity].
  - destruct (String.eqb m name); auto.
Qed.

(** What an insertion into a cache that has just been opened does to
    the entries of the storage. *)
Lemma entry_in_update_open (name u n k : string) (r : Response)
    (cs : list (string * gmap string Response)) :
  entry_in name u
    (Store.update n (fun c => <[k := r]> c) (Store.open n cs))
  = if decide (name = n ∧ u = k) then Some r else entry_in name u cs.
Proof.
  destruct (decide (name = n)) as [-> | Hname].
  - unfold entry_in at 1. rewrite find_update_same, find_open_same. cbn.
    destruct (decide (u = k)) as [-> | Hu].
    + rewrite lookup_insert_eq. rewrite decide_True by auto. reflexivity.
    + rewrite lookup_insert_ne by auto.
      rewrite decide_False by (intros [_ H]; auto).
      unfold entry_in. destruct (Store.find n cs); reflexivity.
  - rewrite decide_False by (intros [H _]; auto).
    unfold entry_in at 1. rewrite find_update_other by exact Hname.
    apply entry_in_open_any.
Qed.

(** The same for a [delete]. *)
Lemma entry_in_delete (name u n k : string)
    (cs : list (string * gmap string Response)) :
  entry_in name u
    (Store.update n (fun c => delete k c) (Store.open n cs))
  = if decide (name = n ∧ u = k) then None else entry_in name u cs.
Proof.
  destruct (decide (name = n)) as [-> | Hname].
  - unfold entry_in at 1. rewrite find_update_same, find_open_same. cbn.
    destruct (decide (u = k)) as [-> | Hu].
    + rewrite lookup_delete_eq. rewrite decide_True by auto. reflexivity.
    + rewrite lookup_delete_ne by auto.
      rewrite decide_False by (intros [_ H]; auto).
      unfold entry_in. destruct (Store.find n cs); reflexivity.
  - rewrite decide_False by (intros [H _]; auto).
    unfold entry_in at 1. rewrite find_update_other by exact Hname.
    apply entry_in_open_any.
Qed.

Lemma open_cons_other (name n : string) (c : gmap string Response)
    (cs : list (string * gmap string Response)) :
  String.eqb n name = false →
  Store.open name ((n, c) :: cs) = (n, c) :: Store.open name cs.
Proof.
  intros Hne. unfold Store.open. simpl. rewrite Hne.
  destruct (Store.find name cs); reflexivity.
Qed.

Lemma match_all_update_fresh (u n : string) (r : Response)
    (cs : list (string * gmap string Response)) :
  Store.match_all u cs = None →
  Store.match_all u (Store.update n (fun c => <[u := r]> c) (Store.open n cs))
  = Some r.
Proof.
  induction cs as [| [m c] cs IH]; intros Hnone.
  - unfold Store.open. simpl. rewrite String.eqb_refl. simpl.
    rewrite lookup_insert_eq. reflexivity.
  - simpl in Hnone. destruct (c !! u) eqn:Ec; [discriminate |].
    destruct (String.eqb m n) eqn:Em.
    + unfold Store.open. simpl. rewrite Em. simpl. rewrite Em. simpl.
      rewrite lookup_insert_eq. reflexivity.
    + rewrite open_cons_other by exact Em. simpl. rewrite Em. simpl.
      rewrite Ec. apply IH. exact Hnone.
Qed.

(** An accepted [put] for a URL that no namespace holds makes
    [caches.match] find the new response. *)
Lemma match_all_put_fresh (u n : string) (r : Response)
    (cs : list (string * gmap string Response)) :
  Store.accepts r = true →
  Store.match_all u cs = None →
  Store.match_all u (Store.put n u r (Store.open n cs)) = Some r.
Proof.
  intros Hacc Hnone. rewrite put_accepted by exact Hacc.
  apply match_all_update_fresh. exact Hnone.
Qed.

(** A namespace that comes first and already holds the URL keeps
    answering [caches.match], whatever is put into another namespace. *)
Lemma match_all_put_shadowed (u n first : string) (c : gmap string Response)
    (e r : Response) (cs : list (string * gmap string Response)) :
  first ≠ n → c !! u = Some e →
  Store.match_all u (Store.put n u r (Store.open n ((first, c) :: cs)))
  = Some e.
Proof.
  intros Hne Hc.
  assert (Hb : String.eqb first n = false) by (apply String.eqb_neq; exact Hne).
  rewrite open_cons_other by exact Hb. unfold Store.put.
  destruct (Store.accepts r); simpl; [rewrite Hb; simpl |];
    rewrite Hc; reflexivity.
Qed.

Lemma match_all_none_entry (u name : string)
    (cs : list (string * gmap string Response)) :
  Store.match_all u cs = None → entry_in name u cs = None.
Proof.
  intros Hnone. unfold entry_in.
  induction cs as [| [n c] cs IH]; simpl in *; [reflexivity |].
  destruct (c !! u) eqn:Ec; [discriminate |].
  destruct (String.eqb n name); [exact Ec | auto].
Qed.

(** What [cache.put] into a cache that has just been opened does to the
    entries of the storage. *)
Lemma entry_in_put (name u n k : string) (r : Response)
    (cs : list (string * gmap string Response)) :
  entry_in name u (Store.put n k r (Store.open n cs))
  = if decide (name = n ∧ u = k)
    then (if Store.accepts r then Some r else entry_in name u cs)
    else entry_in name u cs.
Proof.
  unfold Store.put. destruct (Store.accepts r).
  - apply entry_in_update_open.
  - rewrite entry_in_open_any. case_decide; reflexivity.
Qed.

Lemma entry_in_put_accepted (n k : string) (r : Response)
    (cs : list (string * gmap string Response)) :
  Store.accepts r = true →
  entry_in n k (Store.put n k r (Store.open n cs)) = Some r.
Proof.
  intros Hacc. rewrite entry_in_put, Hacc. rewrite decide_True by auto.
  reflexivity.
Qed.

Lemma entry_in_put_other (name u n k : string) (r : Response)
    (cs : list (string * gmap string Response)) :
  ¬ (name = n ∧ u = k) →
  entry_in name u (Store.put n k r (Store.open n cs)) = entry_in name u cs.
Proof. intros H. rewrite entry_in_put. rewrite decide_False by exact H. reflexivity. Qed.

(** ** Running the handlers *)

(** A cached static entry is served from the cache; a due refresh stops
    at the unbound [event] and the catch block looks the entry up again. *)
Lemma handleStaticRequest_hit_run (request : Request) (env : Env) (w : World)
    (c : Response) :
  Store.match_all (url request) (caches w) = Some c →
  handleStaticRequest request env w =
    (Ok c,
     mkWorld (caches w)
       (trace w ++
          if shouldUpdate (headers c !! TIMESTAMP_HEADER) (now env)
          then [EMatchAll (url request);
                ELog "Service Worker: Static request failed";
                EMatchAll (url request)]
          else [EMatchAll (url request)])).
Proof.
  intros Hhit. unfold handleStaticRequest. js_unfold. cbn.
  rewrite Hhit. cbn.
  destruct (shouldUpdate _ _); cbn.
  - rewrite Hhit. js_trace. reflexivity.
  - reflexivity.
Qed.

Lemma handleStaticRequest_miss_answer (request : Request) (env : Env) (w : World)
    (r : Response) :
  Store.match_all (url request) (caches w) = None →
  net env (url request) = Some r →
  handleStaticRequest request env w =
    (Ok r,
     if ok r then
       mkWorld
         (Store.put CACHE_NAME (url request) (with_timestamp r (now env))
            (Store.open CACHE_NAME (caches w)))
         (trace w ++ [EMatchAll (url request); EFetch (url request);
                      EOpen CACHE_NAME; EPut CACHE_NAME (url request)])
     else
       mkWorld (caches w)
         (trace w ++ [EMatchAll (url request); EFetch (url request)])).
Proof.
  intros Hmiss Hnet. unfold handleStaticRequest. js_unfold. cbn.
  rewrite Hmiss. cbn. rewrite Hnet. cbn.
  destruct (ok r); js_trace; reflexivity.
Qed.

Lemma handleStaticRequest_miss_offline (request : Request) (env : Env) (w : World) :
  Store.match_all (url request) (caches w) = None →
  net env (url request) = None →
  handleStaticRequest request env w =
    (Ok (if match accept request with
            | Some a => Str.includes a "text/html"
            | None => false
            end
         then offline_page else service_unavailable),
     mkWorld (caches w)
       (trace w ++ [EMatchAll (url request); EFetch (url request);
                    ELog "Service Worker: Static request failed";
                    EMatchAll (url request)])).
Proof.
  intros Hmiss Hnet. unfold handleStaticRequest. js_unfold. cbn.
  rewrite Hmiss. cbn. rewrite Hnet. cbn. rewrite Hmiss. cbn.
  destruct (match accept request with Some a => _ | None => _ end);
    js_trace; reflexivity.
Qed.

Lemma handleDynamicRequest_answer (request : Request) (env : Env) (w : World)
    (r : Response) :
  net env (url request) = Some r →
  handleDynamicRequest request env w =
    (Ok r,
     if ok r then
       mkWorld
         (Store.put DYNAMIC_CACHE (url request) r
            (Store.open DYNAMIC_CACHE (caches w)))
         (trace w ++ [EFetch (url request); EOpen DYNAMIC_CACHE;
                      EPut DYNAMIC_CACHE (url request)])
     else mkWorld (caches w) (trace w ++ [EFetch (url request)])).
Proof.
  intros Hnet. unfold handleDynamicRequest. js_unfold. cbn.
  rewrite Hnet. cbn. destruct (ok r); js_trace; reflexivity.
Qed.

Lemma handleDynamicRequest_offline (request : Request) (env : Env) (w : World) :
  net env (url request) = None →
  handleDynamicRequest request env w =
    (Ok (default service_unavailable (Store.match_all (url request) (caches w))),
     mkWorld (caches w)
       (trace w ++ [EFetch (url request); EMatchAll (url request)])).
Proof.
  intros Hnet. unfold handleDynamicRequest. js_unfold. cbn.
  rewrite Hnet. cbn.
  destruct (Store.match_all _ _); js_trace; reflexivity.
Qed.

Lemma handleApiRequest_success (request : Request) (env : Env) (w : World)
    (r : Response) :
  net env (url request) = Some r → ok r = true →
  handleApiRequest request env w =
    (Ok r,
     mkWorld
       (Store.put API_CACHE (url request) (with_timestamp r (now env))
          (Store.open API_CACHE (caches w)))
       (trace w ++ [EFetch (url request); EOpen API_CACHE;
                    EPut API_CACHE (url request)])).
Proof.
  intros Hnet Hok. unfold handleApiRequest. js_unfold. cbn.
  rewrite Hnet. cbn. rewrite Hok. js_trace. reflexivity.
Qed.

Lemma handleApiRequest_failure (request : Request) (env : Env) (w : World) :
  network_failed env (url request) →
  handleApiRequest request env w =
    let '(r, cs, evs) := api_fallback request (now env) (caches w) in
    (Ok r, mkWorld cs (trace w ++ EFetch (url request) :: evs)).
Proof.
  intros Hfail. unfold network_failed in Hfail.
  unfold handleApiRequest, api_fallback. js_unfold. cbn.
  rewrite <- (entry_in_open API_CACHE (url request) (caches w)).
  unfold entry_in.
  destruct (net env (url request)) as [r |]; cbn;
    [rewrite Hfail; cbn |];
    (destruct (Store.find API_CACHE (Store.open API_CACHE (caches w))) as [m |];
     cbn; [destruct (m !! url request) as [c |]; cbn;
           [destruct (isExpired _ _); js_trace; reflexivity |] |];
     js_trace; reflexivity).
Qed.

Lemma updateStaticCache_run (request : Request) (env : Env) (w : World) :
  updateStaticCache request env w =
    (Ok tt,
     match net env (url request) with
     | Some r =>
         if ok r then
           mkWorld
             (Store.put CACHE_NAME (url request) (with_timestamp r (now env))
                (Store.open CACHE_NAME (caches w)))
             (trace w ++ [EFetch (url request); EOpen CACHE_NAME;
                          EPut CACHE_NAME (url request);
                          ELog "Service Worker: Updated cache for"])
         else mkWorld (caches w) (trace w ++ [EFetch (url request)])
     | None =>
         mkWorld (caches w)
           (trace w ++ [EFetch (url request);
                        ELog "Service Worker: Failed to update cache for"])
     end).
Proof.
  unfold updateStaticCache. js_unfold. cbn.
  destruct (net env (url request)) as [r |]; cbn;
    [destruct (ok r) |]; js_trace; reflexivity.
Qed.

(** ** install and activate *)

Lemma bind_ok {A B} (m : M A) (k : A → M B) (env : Env) (w : World)
    (a : A) (w' : World) :
  m env w = (Ok a, w') → bind m k env w = k a env w'.
Proof. intros H. unfold bind. rewrite H. reflexivity. Qed.

Lemma for_each_fetch_events (urls : list string) (env : Env) (w : World) :
  for_each (fun u => emit (EFetch u)) urls env w =
    (Ok tt, mkWorld (caches w) (trace w ++ map EFetch urls)).
Proof.
  revert w. induction urls as [| u urls IH]; intros w; simpl.
  - unfold ret. rewrite app_nil_r. destruct w; reflexivity.
  - js_unfold. cbn. rewrite IH. js_trace. reflexivity.
Qed.

Lemma forallb_answers (env : Env) (urls : list string) :
  forallb (fun a : string * option Response =>
             match a.2 with Some r => addable r | None => false end)
    (map (fun u => (u, net env u)) urls)
  = forallb (fun u => match net env u with Some r => addable r | None => false end)
      urls.
Proof. induction urls as [| u urls IH]; simpl; [| rewrite IH]; reflexivity. Qed.

Lemma for_each_put_run (cache : string) (answers : list (string * option Response))
    (env : Env) (w : World) :
  for_each (fun a => match a.2 with
                     | Some r => cache_put cache a.1 r
                     | None => ret tt
                     end) answers env w
  = (Ok tt,
     mkWorld (fold_left (store_answer cache) answers (caches w))
       (trace w ++ put_events cache answers)).
Proof.
  revert w. induction answers as [| [u [r |]] answers IH]; intros w.
  - simpl. unfold ret. rewrite app_nil_r. destruct w; reflexivity.
  - cbn [for_each fold_left put_events flat_map snd fst].
    erewrite bind_ok by reflexivity. rewrite IH.
    unfold store_answer at 2. cbn [fst snd caches trace].
    rewrite <- !app_assoc. reflexivity.
  - cbn [for_each fold_left put_events flat_map snd fst].
    erewrite bind_ok by reflexivity. rewrite IH. reflexivity.
Qed.

Lemma cache_addAll_run (origin cache : string) (urls : list string)
    (env : Env) (w : World) :
  cache_addAll origin cache urls env w =
    let requests := map (resolve origin) urls in
    if forallb (fun u => match net env u with
                         | Some r => addable r
                         | None => false
                         end) requests
    then (Ok tt,
          mkWorld
            (fold_left (store_answer cache)
               (map (fun u => (u, net env u)) requests) (caches w))
            (trace w ++ map EFetch requests
               ++ put_events cache (map (fun u => (u, net env u)) requests)))
    else (Throw (TypeError "Request failed"),
          mkWorld (caches w) (trace w ++ map EFetch requests)).
Proof.
  unfold cache_addAll. cbv zeta.
  erewrite bind_ok by apply for_each_fetch_events.
  rewrite forallb_answers.
  destruct (forallb _ (map (resolve origin) urls)); [| reflexivity].
  rewrite for_each_put_run. cbn [caches trace].
  rewrite <- app_assoc. reflexivity.
Qed.

(** The promise given to [waitUntil] by the install handler is always
    fulfilled: the final [catch] turns every rejection into a value. *)
Lemma install_promise_fulfils (origin : string) (env : Env) (w : World) :
  ∃ w', install_promise origin env w = (Ok tt, w').
Proof.
  unfold install_promise, try_catch.
  match goal with |- context [match ?m env w with _ => _ end] =>
    destruct (m env w) as [[[] | e] w'] end.
  - eauto.
  - unfold console_log, emit. eauto.
Qed.

Lemma on_install_always_installed (origin : string) (env : Env) (w : World) :
  (on_install origin env w).1 = Installed.
Proof.
  unfold on_install.
  erewrite bind_ok by reflexivity.
  destruct (install_promise_fulfils origin env
              (mkWorld (caches w)
                 (trace w ++ [ELog "Service Worker: Installing..."])))
    as [w' ->].
  reflexivity.
Qed.

Lemma bind_throw {A B} (m : M A) (k : A → M B) (env : Env) (w : World)
    (e : JsError) (w' : World) :
  m env w = (Throw e, w') → bind m k env w = (Throw e, w').
Proof. intros H. unfold bind. rewrite H. reflexivity. Qed.

(** A failed prefetch stores nothing and does not ask to skip waiting,
    and the install step is reported as done all the same. *)
Lemma on_install_failed_prefetch (origin : string) (env : Env) (w : World) :
  prefetch_ok origin env = false →
  on_install origin env w =
    (Installed,
     mkWorld (Store.open CACHE_NAME (caches w))
       (trace w ++ [ELog "Service Worker: Installing..."; EOpen CACHE_NAME;
                    ELog "Service Worker: Caching static assets"]
          ++ map EFetch (map (resolve origin) STATIC_CACHE_URLS)
          ++ [ELog "Service Worker: Install failed"])).
Proof.
  intros Hbad. unfold on_install. erewrite bind_ok by reflexivity.
  unfold install_promise, try_catch.
  erewrite (bind_ok (caches_open CACHE_NAME)) by reflexivity.
  erewrite (bind_ok (console_log _)) by reflexivity.
  erewrite (bind_throw (cache_addAll _ _ _))
    by (rewrite cache_addAll_run; cbv zeta; fold (prefetch_ok origin env);
        rewrite Hbad; reflexivity).
  unfold console_log, emit. cbn [caches trace].
  rewrite <- !app_assoc. reflexivity.
Qed.

Lemma sweep_run (cacheNames : list string) (env : Env) (w : World) :
  for_each
    (fun cacheName =>
       if negb (String.eqb cacheName CACHE_NAME)
       then run console_log "Service Worker: Deleting old cache" in
            caches_delete cacheName
       else ret tt)
    cacheNames env w
  = (Ok tt,
     mkWorld (fold_left sweep_step cacheNames (caches w))
       (trace w ++ sweep_events cacheNames)).
Proof.
  revert w. induction cacheNames as [| n l IH]; intros w.
  - simpl. unfold ret. rewrite app_nil_r. destruct w; reflexivity.
  - cbn [for_each fold_left sweep_events flat_map]. unfold bind at 1.
    unfold sweep_step at 2.
    destruct (negb (String.eqb n CACHE_NAME)).
    + js_unfold. cbn -[CACHE_NAME]. rewrite IH. cbn -[CACHE_NAME].
      rewrite <- !app_assoc. reflexivity.
    + unfold ret at 1. rewrite IH. reflexivity.
Qed.

Lemma filter_filter_bool {A} (f g : A → bool) (l : list A) :
  List.filter f (List.filter g l) = List.filter (fun x => g x && f x) l.
Proof.
  induction l as [| x l IH]; simpl; [reflexivity |].
  destruct (g x); simpl; [destruct (f x) |]; congruence.
Qed.

Lemma sweep_as_filter (l : list string) (cs : list (string * gmap string Response)) :
  fold_left sweep_step l cs =
  List.filter
    (fun nc => negb (existsb (fun n => negb (String.eqb n CACHE_NAME)
                                       && String.eqb nc.1 n) l)) cs.
Proof.
  revert cs. induction l as [| n l IH]; intros cs; simpl.
  - induction cs as [| x cs IHcs]; simpl; congruence.
  - rewrite IH. unfold sweep_step, Store.remove.
    destruct (negb (String.eqb n CACHE_NAME)); simpl.
    + rewrite filter_filter_bool. apply List.filter_ext. intros nc.
      rewrite negb_orb. reflexivity.
    + reflexivity.
Qed.

(** Activation keeps exactly the caches named [CACHE_NAME]. *)
Lemma sweep_keys (cs : list (string * gmap string Response)) :
  fold_left sweep_step (Store.keys cs) cs =
  List.filter (fun nc => String.eqb nc.1 CACHE_NAME) cs.
Proof.
  rewrite sweep_as_filter. apply List.filter_ext_in. intros [n c] Hin.
  cbn [fst]. destruct (String.eqb_spec n CACHE_NAME) as [-> | Hne].
  - apply negb_true_iff, not_true_is_false. intros H.
    apply existsb_exists in H. destruct H as [m [_ H]].
    apply andb_true_iff in H. destruct H as [H1 H2].
    apply String.eqb_eq in H2. subst m.
    rewrite String.eqb_refl in H1. discriminate.
  - apply negb_false_iff, existsb_exists. exists n. split.
    + unfold Store.keys. apply in_map_iff. exists (n, c). auto.
    + rewrite String.eqb_refl, andb_true_r. apply negb_true_iff.
      apply String.eqb_neq. exact Hne.
Qed.

(** The whole activate handler: never rejects; the storage keeps only
    [CACHE_NAME]; [clients.claim()] is the last event. *)
Lemma on_activate_run (env : Env) (w : World) :
  on_activate env w =
    (Ok tt,
     mkWorld (List.filter (fun nc => String.eqb nc.1 CACHE_NAME) (caches w))
       (trace w ++ ELog "Service Worker: Activating..." :: EKeys
          :: sweep_events (Store.keys (caches w)) ++ [EClaim])).
Proof.
  unfold on_activate.
  erewrite bind_ok by reflexivity.
  erewrite (bind_ok caches_keys) by reflexivity.
  erewrite bind_ok by apply sweep_run.
  unfold clients_claim, emit. cbn [caches trace].
  rewrite sweep_keys, <- !app_assoc. reflexivity.
Qed.

(** ** Request classification *)

Lemma is_api_host_spec (h : string) :
  is_api_host h = true ↔ ∃ host, host ∈ API_HOSTS ∧ Str.occurs_in host h.
Proof.
  unfold is_api_host, API_HOSTS. rewrite orb_true_iff, !includes_spec. split.
  - intros [H | H]; eexists; (split; [| exact H]); set_solver.
  - intros [host [Hin H]].
    apply list_elem_of_In in Hin. simpl in Hin.
    destruct Hin as [<- | [<- | []]]; auto.
Qed.

Lemma is_static_url_spec (u : string) :
  is_static_url u = true ↔
  ∃ staticUrl, staticUrl ∈ STATIC_CACHE_URLS ∧ Str.occurs_in staticUrl u.
Proof.
  unfold is_static_url. rewrite existsb_exists. split.
  - intros [x [Hin H]]. exists x. rewrite list_elem_of_In, <- includes_spec. auto.
  - intros [x [Hin H]]. exists x. rewrite <- list_elem_of_In, includes_spec. auto.
Qed.

(** The second host test of the fetch handler adds nothing to the first. *)
Lemma is_api_host_first_test (h : string) :
  is_api_host h = Str.includes h "open-meteo.com".
Proof.
  unfold is_api_host.
  destruct (Str.includes h "geocoding-api.open-meteo.com") eqn:E;
    [| apply orb_false_r].
  rewrite orb_true_r. symmetry. apply includes_spec.
  apply (occurs_in_trans _ "geocoding-api.open-meteo.com");
    [| apply includes_spec; exact E].
  exists "geocoding-api.", "". reflexivity.
Qed.

(** Requests with another method than GET are left alone. *)
Lemma on_fetch_passes_non_get (request : Request) :
  on_fetch request = None ↔ method request ≠ "GET".
Proof.
  unfold on_fetch, classify.
  destruct (String.eqb_spec (method request) "GET") as [He | Hne]; cbn [negb].
  - split; [| congruence].
    destruct (is_api_host _); [discriminate |].
    destruct (is_static_url _); discriminate.
  - split; [auto | reflexivity].
Qed.

Example on_fetch_styles :
  on_fetch Sample.styles = Some (handleStaticRequest Sample.styles).
Proof. reflexivity. Qed.

Example classify_blank : classify Sample.blank = Some dynamic.
Proof. reflexivity. Qed.

(** A URL with a slash in it holds the manifest entry ["/"], so it is never
    left to the dynamic strategy. *)
Lemma slash_never_dynamic (request : Request) :
  Str.occurs_in "/" (url request) → classify request ≠ Some dynamic.
Proof.
  intros Hslash. unfold classify.
  destruct (negb _); [discriminate |].
  destruct (is_api_host _); [discriminate |].
  assert (Hst : is_static_url (url request) = true).
  { apply is_static_url_spec. exists "/". split; [| exact Hslash].
    unfold STATIC_CACHE_URLS. set_solver. }
  rewrite Hst. discriminate.
Qed.

(** The branch the fetch listener takes, in terms of substrings: for a
    GET request it is the api branch exactly when the host name contains
    an allow-list entry; otherwise the static branch exactly when the
    request URL contains some manifest entry; otherwise the dynamic
    branch. *)
Theorem classify_by_substring (request : Request) :
  method request = "GET" →
  let api_host :=
    ∃ host, host ∈ API_HOSTS ∧ Str.occurs_in host (hostname request) in
  let manifest_hit :=
    ∃ staticUrl, staticUrl ∈ STATIC_CACHE_URLS
                 ∧ Str.occurs_in staticUrl (url request) in
  match classify request with
  | Some api => api_host
  | Some static => ¬ api_host ∧ manifest_hit
  | Some dynamic => ¬ api_host ∧ ¬ manifest_hit
  | None => False
  end.
Proof.
  intros Hget api_host manifest_hit. unfold classify. rewrite Hget. cbn [negb].
  change (String.eqb "GET" "GET") with true. cbn [negb].
  destruct (is_api_host (hostname request)) eqn:Ha.
  - apply is_api_host_spec. exact Ha.
  - assert (Hna : ¬ api_host).
    { intros H. apply is_api_host_spec in H. congruence. }
    destruct (is_static_url (url request)) eqn:Hs.
    + split; [exact Hna | apply is_static_url_spec; exact Hs].
    + split; [exact Hna |]. intros H. apply is_static_url_spec in H. congruence.
Qed.

Lemma classify_by_substring_witness :
  method Sample.avatar = "GET" ∧
  ((¬ ∃ host, host ∈ API_HOSTS ∧ Str.occurs_in host (hostname Sample.avatar))
   ∧ ∃ staticUrl, staticUrl ∈ STATIC_CACHE_URLS
                  ∧ Str.occurs_in staticUrl (url Sample.avatar)).
Proof.
  split; [reflexivity |].
  exact (classify_by_substring Sample.avatar eq_refl).
Defined.

(** C3.  The specification asks for the static class exactly for the
    URLs that are members of the manifest, and for the dynamic class
    otherwise.  On the script a GET request for a URL that is not in the
    manifest, to a host outside the allow-list, is handled as static: the
    listener tests [request.url.includes(staticUrl)], and every URL with
    a slash contains the manifest entry ["/"], which leaves the branch
    for other requests without any web request to take it. *)
Lemma classify_is_not_membership :
  method Sample.avatar = "GET"
  ∧ is_api_host (hostname Sample.avatar) = false
  ∧ ¬ In (url Sample.avatar) STATIC_CACHE_URLS
  ∧ classify Sample.avatar = Some static
  ∧ classify_spec Sample.avatar = Some dynamic.
Proof.
  repeat split; try reflexivity.
  vm_compute. intuition discriminate.
Qed.

(** ** Install and activation at concrete storage states *)

(** C1.  The specification asks that an install with a failed prefetch fails as a
    whole.  On the script it does not: with [/styles.css] unreachable the
    prefetch stores nothing and [skipWaiting] is not requested, yet the
    promise given to [waitUntil] is fulfilled by the final [catch], so the
    install step completes over an empty static namespace. *)
Theorem install_completes_after_failed_prefetch :
  let env := Sample.one_asset_down 1000 in
  let result := on_install Sample.ORIGIN env Sample.empty_world in
  net env (resolve Sample.ORIGIN "/styles.css") = None
  ∧ In "/styles.css" STATIC_CACHE_URLS
  ∧ result.1 = Installed
  ∧ caches result.2 = [(CACHE_NAME, ∅)]
  ∧ ¬ In ESkipWaiting (trace result.2)
  ∧ In (ELog "Service Worker: Install failed") (trace result.2).
Proof.
  cbv zeta.
  rewrite (on_install_failed_prefetch Sample.ORIGIN
             (Sample.one_asset_down 1000) Sample.empty_world) by reflexivity.
  repeat split; try reflexivity.
  - vm_compute. tauto.
  - vm_compute. intuition discriminate.
  - vm_compute. tauto.
Qed.

(** C4.  The specification asks that no namespace of the activating version is
    deleted.  On the script, storage that already holds the api namespace
    of this version loses it on activation: only the name [CACHE_NAME]
    itself is spared.  The old version is deleted and [clients.claim()]
    comes after every deletion, as the specification says. *)
Theorem activation_deletes_own_api_namespace :
  let result := on_activate (Sample.offline 1000) Sample.before_activation in
  In API_CACHE version_namespaces
  ∧ In API_CACHE (Store.keys (caches Sample.before_activation))
  ∧ result.1 = Ok tt
  ∧ Store.keys (caches result.2) = [CACHE_NAME]
  ∧ trace result.2 =
      [ELog "Service Worker: Activating..."; EKeys;
       ELog "Service Worker: Deleting old cache"; ECachesDelete "weatherflow-v0.9.0";
       ELog "Service Worker: Deleting old cache"; ECachesDelete API_CACHE;
       EClaim].
Proof.
  cbv zeta. rewrite on_activate_run.
  repeat split; vm_compute; tauto.
Qed.

(** After activation a cache is left exactly when its name is
    [CACHE_NAME], and the claim of clients follows all deletions. *)
Lemma on_activate_keeps_only_cache_name (env : Env) (w : World) (name : string) :
  let result := on_activate env w in
  (In name (Store.keys (caches result.2)) ↔
   name = CACHE_NAME ∧ In name (Store.keys (caches w)))
  ∧ ∃ evs, trace result.2 = trace w ++ evs ++ [EClaim]
           ∧ ¬ In EClaim evs.
Proof.
  cbv zeta. rewrite on_activate_run. cbn [snd caches trace]. split.
  - unfold Store.keys. rewrite !in_map_iff. split.
    + intros [[n c] [Hn Hin]]. cbn in Hn. subst n.
      apply List.filter_In in Hin. destruct Hin as [Hin Heq].
      cbn in Heq. apply String.eqb_eq in Heq. split; [exact Heq |].
      exists (name, c). auto.
    + intros [Heq [[n c] [Hn Hin]]]. cbn in Hn. subst n.
      exists (name, c). split; [reflexivity |].
      apply List.filter_In. split; [exact Hin |].
      cbn. apply String.eqb_eq. exact Heq.
  - exists (ELog "Service Worker: Activating..." :: EKeys
            :: sweep_events (Store.keys (caches w))).
    split; [reflexivity |].
    intros [H | [H | H]]; [discriminate | discriminate |].
    unfold sweep_events in H. apply in_flat_map in H.
    destruct H as [n [_ H]].
    destruct (negb (String.eqb n CACHE_NAME)); simpl in H;
      intuition discriminate.
Qed.

(** ** The static strategy *)

Lemma no_fetch_in_static_hit (b : bool) (u : string) :
  forallb (fun e => negb (is_fetch e))
    (if b then [EMatchAll u; ELog "Service Worker: Static request failed";
                EMatchAll u]
     else [EMatchAll u]) = true.
Proof. destruct b; reflexivity. Qed.

(** C9.  A static request that finds an entry gets exactly that entry,
    whatever its age; the storage is left as it was, the run performs no
    fetch, and the outcome is the same under every network. *)
Theorem static_hit_served_without_network (request : Request) (env : Env)
    (w : World) (c : Response) :
  Store.match_all (url request) (caches w) = Some c →
  ∃ w' evs,
    handleStaticRequest request env w = (Ok c, w')
    ∧ caches w' = caches w
    ∧ added w w' evs
    ∧ forallb (fun e => negb (is_fetch e)) evs = true
    ∧ ∀ other_net,
        handleStaticRequest request (mkEnv other_net (now env)) w = (Ok c, w').
Proof.
  intros Hhit. eexists. eexists.
  split; [apply handleStaticRequest_hit_run; exact Hhit |].
  split; [reflexivity |].
  split; [reflexivity |].
  split; [apply no_fetch_in_static_hit |].
  intros other_net. rewrite (handleStaticRequest_hit_run _ _ _ _ Hhit).
  reflexivity.
Qed.

Lemma static_hit_served_without_network_witness :
  Store.match_all (url Sample.styles) (caches Sample.with_static_entry)
    = Some (Sample.stored "old body" 0)
  ∧ ∃ w' evs,
      handleStaticRequest Sample.styles
        (Sample.online Sample.fresh_body (25 * Sample.HOUR))
        Sample.with_static_entry = (Ok (Sample.stored "old body" 0), w')
      ∧ caches w' = caches Sample.with_static_entry
      ∧ added Sample.with_static_entry w' evs
      ∧ forallb (fun e => negb (is_fetch e)) evs = true
      ∧ ∀ other_net,
          handleStaticRequest Sample.styles
            (mkEnv other_net (25 * Sample.HOUR)) Sample.with_static_entry
          = (Ok (Sample.stored "old body" 0), w').
Proof.
  split; [reflexivity |].
  apply (static_hit_served_without_network Sample.styles
           (Sample.online Sample.fresh_body (25 * Sample.HOUR))
           Sample.with_static_entry).
  reflexivity.
Defined.

(** C2.  The specification asks for a background refetch of a stale static entry
    that overwrites it.  On the script the stale entry is returned, but
    the refresh is never started: with an entry stored 25 hours ago and a
    network ready to answer with a new body, the run fetches nothing, the
    entry stays, and the next request gets the old body again. *)
Theorem stale_static_entry_is_never_refreshed :
  let env := Sample.online Sample.fresh_body (25 * Sample.HOUR) in
  let entry := Sample.stored "old body" 0 in
  let first := handleStaticRequest Sample.styles env Sample.with_static_entry in
  let second := handleStaticRequest Sample.styles env first.2 in
  storedAt entry = Some 0
  ∧ shouldUpdate (headers entry !! TIMESTAMP_HEADER) (now env) = true
  ∧ net env (url Sample.styles) = Some Sample.fresh_body
  ∧ ok Sample.fresh_body = true
  ∧ first.1 = Ok entry
  ∧ caches first.2 = caches Sample.with_static_entry
  ∧ forallb (fun e => negb (is_fetch e)) (trace first.2) = true
  ∧ second.1 = Ok entry
  ∧ body entry ≠ body Sample.fresh_body.
Proof.
  cbv zeta. repeat split; try (vm_compute; reflexivity).
  vm_compute. discriminate.
Qed.

(** The refresh of a static entry, had it been started with the network
    up, would have replaced the entry. *)
Lemma updateStaticCache_overwrites (request : Request) (env : Env) (w : World)
    (r : Response) :
  net env (url request) = Some r → ok r = true → Store.accepts r = true →
  ∃ w', updateStaticCache request env w = (Ok tt, w')
        ∧ entry_in CACHE_NAME (url request) (caches w')
          = Some (with_timestamp r (now env)).
Proof.
  intros Hnet Hok Hacc. rewrite updateStaticCache_run, Hnet, Hok.
  eexists. split; [reflexivity |]. cbn [caches].
  apply entry_in_put_accepted. rewrite accepts_with_timestamp. exact Hacc.
Qed.

(** ** Freshness *)

Lemma age_exceeds_spec (t : Z) (ts : string) (stored ttl : Z) :
  Num.parseInt ts = Some stored →
  age_exceeds t ts ttl = true ↔ t - stored > ttl.
Proof.
  intros Hts. unfold age_exceeds. rewrite Hts. rewrite Z.ltb_lt. lia.
Qed.

Lemma parsed_is_truthy (ts : string) (stored : Z) :
  Num.parseInt ts = Some stored → truthy (Some ts) = true.
Proof.
  destruct ts; [rewrite parseInt_empty; discriminate | reflexivity].
Qed.

(** C8.  With the stored time read from the timestamp, both freshness
    tests of the script are the strict comparison [now - storedAt > ttl]:
    an entry of age exactly [ttl] is fresh, any greater age is expired. *)
Theorem freshness_is_strict (ts : string) (stored t ttl : Z) :
  Num.parseInt ts = Some stored →
  (age_exceeds t ts ttl = true ↔ t - stored > ttl)
  ∧ (isExpired (Some ts) t = true ↔ t - stored > API_CACHE_DURATION)
  ∧ (shouldUpdate (Some ts) t = true ↔ t - stored > STATIC_CACHE_DURATION)
  ∧ isExpired (Some ts) (stored + API_CACHE_DURATION) = false
  ∧ isExpired (Some ts) (stored + API_CACHE_DURATION + 1) = true
  ∧ shouldUpdate (Some ts) (stored + STATIC_CACHE_DURATION) = false
  ∧ shouldUpdate (Some ts) (stored + STATIC_CACHE_DURATION + 1) = true.
Proof.
  intros Hts. pose proof (parsed_is_truthy ts stored Hts) as Htr.
  assert (He : ∀ t', isExpired (Some ts) t' = true
                     ↔ t' - stored > API_CACHE_DURATION).
  { intros t'. unfold isExpired. rewrite Htr. cbn [andb].
    apply age_exceeds_spec. exact Hts. }
  assert (Hu : ∀ t', shouldUpdate (Some ts) t' = true
                     ↔ t' - stored > STATIC_CACHE_DURATION).
  { intros t'. unfold shouldUpdate. rewrite Htr. cbn [negb orb].
    apply age_exceeds_spec. exact Hts. }
  split; [apply age_exceeds_spec; exact Hts |].
  split; [apply He |]. split; [apply Hu |].
  split; [apply not_true_is_false; rewrite He; lia |].
  split; [apply He; lia |].
  split; [apply not_true_is_false; rewrite Hu; lia | apply Hu; lia].
Qed.

Lemma freshness_is_strict_witness :
  Num.parseInt "1700000000000" = Some 1700000000000
  ∧ isExpired (Some "1700000000000") (1700000000000 + API_CACHE_DURATION) = false
  ∧ isExpired (Some "1700000000000") (1700000000000 + API_CACHE_DURATION + 1) = true.
Proof.
  split; [reflexivity |].
  pose proof (freshness_is_strict "1700000000000" 1700000000000 0 0 eq_refl) as H.
  split; [apply H | apply H].
Defined.

(** ** The api strategy *)

(** C6, as amended.  When the network answers an api request with a 2xx
    response, the response is returned and no cache is looked up.  When
    the response is one the cache stores (any but a 206 and one that
    varies on [*]), the api namespace then holds for this key an entry
    with the new status and body and with [storedAt = now], whatever was
    stored before; otherwise the entry for this key is left as it was. *)
Theorem api_network_success_overwrites (request : Request) (env : Env)
    (w : World) (r : Response) :
  net env (url request) = Some r → ok r = true →
  ∃ w' evs,
    handleApiRequest request env w = (Ok r, w')
    ∧ (if Store.accepts r
       then ∃ entry,
              entry_in API_CACHE (url request) (caches w') = Some entry
              ∧ body entry = body r
              ∧ status entry = status r
              ∧ storedAt entry = Some (now env)
       else entry_in API_CACHE (url request) (caches w')
            = entry_in API_CACHE (url request) (caches w))
    ∧ added w w' evs
    ∧ forallb (fun e => negb (is_lookup e)) evs = true.
Proof.
  intros Hnet Hok. eexists. eexists.
  split; [apply handleApiRequest_success; assumption |].
  split; [| split; reflexivity].
  cbn [caches]. rewrite entry_in_put, accepts_with_timestamp.
  rewrite decide_True by auto.
  destruct (Store.accepts r); [| reflexivity].
  exists (with_timestamp r (now env)).
  split; [reflexivity |]. split; [reflexivity |]. split; [reflexivity |].
  apply storedAt_with_timestamp.
Qed.

Lemma api_network_success_overwrites_witness :
  net (Sample.online Sample.fresh_body 2000) (url Sample.forecast)
    = Some Sample.fresh_body
  ∧ ok Sample.fresh_body = true
  ∧ ∃ w' evs,
      handleApiRequest Sample.forecast (Sample.online Sample.fresh_body 2000)
        (Sample.with_api_entry 1000) = (Ok Sample.fresh_body, w')
      ∧ (∃ entry,
           entry_in API_CACHE (url Sample.forecast) (caches w') = Some entry
           ∧ body entry = body Sample.fresh_body
           ∧ status entry = status Sample.fresh_body
           ∧ storedAt entry = Some 2000)
      ∧ added (Sample.with_api_entry 1000) w' evs
      ∧ forallb (fun e => negb (is_lookup e)) evs = true.
Proof.
  split; [reflexivity |]. split; [reflexivity |].
  exact (api_network_success_overwrites Sample.forecast
           (Sample.online Sample.fresh_body 2000) (Sample.with_api_entry 1000)
           Sample.fresh_body eq_refl eq_refl).
Defined.

(** C6, as stated, fails for a 2xx answer the cache does not store: a 206
    answer is returned to the caller, and the entry stored before for the
    key is still there, with the old body. *)
Lemma partial_content_is_not_stored :
  let env := Sample.online Sample.partial_content 2000 in
  let w := Sample.with_api_entry 1000 in
  net env (url Sample.forecast) = Some Sample.partial_content
  ∧ ok Sample.partial_content = true
  ∧ (handleApiRequest Sample.forecast env w).1 = Ok Sample.partial_content
  ∧ entry_in API_CACHE (url Sample.forecast)
      (caches (handleApiRequest Sample.forecast env w).2)
    = Some (Sample.stored "18C" 1000)
  ∧ body (Sample.stored "18C" 1000) ≠ body Sample.partial_content.
Proof.
  cbv zeta. repeat split; try (vm_compute; reflexivity).
  vm_compute. discriminate.
Qed.

Lemma isExpired_of_storedAt (entry : Response) (stored t : Z) :
  storedAt entry = Some stored →
  isExpired (headers entry !! TIMESTAMP_HEADER) t
  = negb (t - stored <=? API_CACHE_DURATION).
Proof.
  intros Hs. apply storedAt_truthy in Hs. destruct Hs as [ts [Hh [Hp Htr]]].
  rewrite Hh. unfold isExpired, age_exceeds. rewrite Htr, Hp. cbn [andb].
  destruct (Z.ltb_spec API_CACHE_DURATION (t - stored));
    destruct (Z.leb_spec (t - stored) API_CACHE_DURATION); try reflexivity; lia.
Qed.

Lemma isExpired_without_storedAt (entry : Response) (t : Z) :
  storedAt entry = None →
  isExpired (headers entry !! TIMESTAMP_HEADER) t = false.
Proof.
  unfold storedAt, isExpired, age_exceeds.
  destruct (headers entry !! TIMESTAMP_HEADER) as [ts |]; [| reflexivity].
  cbn. intros ->. apply andb_false_r.
Qed.

(** C7.  When the network attempt of an api request fails (no answer, or
    an answer outside 2xx): an entry of the api namespace no older than
    the api freshness window is returned and kept; an older one is
    deleted and the synthesized response is returned; with no entry the
    synthesized response is returned.  That response has status 503 and a
    JSON payload with [offline] set to [true] and an [error] text. *)
Theorem api_network_failure_fallback (request : Request) (env : Env) (w : World) :
  network_failed env (url request) →
  ∃ resp w',
    handleApiRequest request env w = (Ok resp, w')
    ∧ match entry_in API_CACHE (url request) (caches w) with
      | Some entry =>
          match storedAt entry with
          | Some stored =>
              if now env - stored <=? API_CACHE_DURATION
              then resp = entry
                   ∧ entry_in API_CACHE (url request) (caches w') = Some entry
              else resp = api_offline_response
                   ∧ entry_in API_CACHE (url request) (caches w') = None
          | None => resp = entry
          end
      | None => resp = api_offline_response
      end
    ∧ status api_offline_response = 503
    ∧ Str.occurs_in (Str.dq +:+ "offline" +:+ Str.dq +:+ ":true")
        (body api_offline_response)
    ∧ Str.occurs_in (Str.dq +:+ "error" +:+ Str.dq +:+ ":")
        (body api_offline_response).
Proof.
  intros Hfail. rewrite (handleApiRequest_failure _ _ _ Hfail).
  unfold api_fallback.
  assert (Hflags :
    status api_offline_response = 503
    ∧ Str.occurs_in (Str.dq +:+ "offline" +:+ Str.dq +:+ ":true")
        (body api_offline_response)
    ∧ Str.occurs_in (Str.dq +:+ "error" +:+ Str.dq +:+ ":")
        (body api_offline_response)).
  { split; [reflexivity |]. split; apply includes_spec; reflexivity. }
  destruct (entry_in API_CACHE (url request) (caches w)) as [entry |] eqn:He.
  - destruct (storedAt entry) as [stored |] eqn:Hs.
    + rewrite (isExpired_of_storedAt _ _ _ Hs).
      destruct (now env - stored <=? API_CACHE_DURATION); cbn [negb].
      * eexists. eexists. split; [reflexivity |]. split; [| exact Hflags].
        split; [reflexivity |]. cbn [caches]. rewrite entry_in_open. exact He.
      * eexists. eexists. split; [reflexivity |]. split; [| exact Hflags].
        split; [reflexivity |]. cbn [caches]. unfold entry_in.
        rewrite find_update_same, find_open_same. cbn. apply lookup_delete_eq.
    + rewrite (isExpired_without_storedAt _ _ Hs).
      eexists. eexists. split; [reflexivity |]. split; [reflexivity | exact Hflags].
  - eexists. eexists. split; [reflexivity |]. split; [reflexivity | exact Hflags].
Qed.

Lemma api_network_failure_fallback_witness :
  network_failed (Sample.offline (11 * 60 * 1000)) (url Sample.forecast)
  ∧ ∃ w',
      handleApiRequest Sample.forecast (Sample.offline (11 * 60 * 1000))
        (Sample.with_api_entry 0) = (Ok api_offline_response, w')
      ∧ entry_in API_CACHE (url Sample.forecast) (caches w') = None.
Proof.
  split; [exact I |].
  destruct (api_network_failure_fallback Sample.forecast
              (Sample.offline (11 * 60 * 1000)) (Sample.with_api_entry 0) I)
    as [resp [w' [Hrun [Hcase _]]]].
  exists w'. cbv in Hcase. destruct Hcase as [-> Hgone].
  split; [exact Hrun | exact Hgone].
Defined.

(** ** Failures never leave a handler *)

Lemma handleApiRequest_never_throws (request : Request) (env : Env) (w : World) :
  ∃ resp w', handleApiRequest request env w = (Ok resp, w').
Proof.
  destruct (net env (url request)) as [r |] eqn:Hnet.
  - destruct (ok r) eqn:Hok.
    + rewrite (handleApiRequest_success _ _ _ _ Hnet Hok). eauto.
    + rewrite handleApiRequest_failure
        by (unfold network_failed; rewrite Hnet; exact Hok).
      destruct (api_fallback _ _ _) as [[resp cs] evs]. eauto.
  - rewrite handleApiRequest_failure
      by (unfold network_failed; rewrite Hnet; exact I).
    destruct (api_fallback _ _ _) as [[resp cs] evs]. eauto.
Qed.

Lemma handleStaticRequest_never_throws (request : Request) (env : Env) (w : World) :
  ∃ resp w', handleStaticRequest request env w = (Ok resp, w').
Proof.
  destruct (Store.match_all (url request) (caches w)) as [c |] eqn:Hm.
  - rewrite (handleStaticRequest_hit_run _ _ _ _ Hm). eauto.
  - destruct (net env (url request)) as [r |] eqn:Hnet.
    + rewrite (handleStaticRequest_miss_answer _ _ _ _ Hm Hnet). eauto.
    + rewrite (handleStaticRequest_miss_offline _ _ _ Hm Hnet). eauto.
Qed.

Lemma handleDynamicRequest_never_throws (request : Request) (env : Env) (w : World) :
  ∃ resp w', handleDynamicRequest request env w = (Ok resp, w').
Proof.
  destruct (net env (url request)) as [r |] eqn:Hnet.
  - rewrite (handleDynamicRequest_answer _ _ _ _ Hnet). eauto.
  - rewrite (handleDynamicRequest_offline _ _ _ Hnet). eauto.
Qed.

(** The api handler does not tell an answer outside 2xx from no answer. *)
Lemma handleApiRequest_non_ok_as_down (request : Request) (env : Env) (w : World)
    (r : Response) :
  net env (url request) = Some r → ok r = false →
  handleApiRequest request env w
  = handleApiRequest request (mkEnv (fun _ => None) (now env)) w.
Proof.
  intros Hnet Hok.
  rewrite !handleApiRequest_failure; [reflexivity | exact I |].
  unfold network_failed. rewrite Hnet. exact Hok.
Qed.

(** C5, as amended.  No handler lets a network failure escape: each of the
    three always produces a response.  The api handler treats an answer
    outside 2xx exactly as a transport failure.  The dynamic handler, and
    the static handler when nothing is cached, hand an answer outside 2xx
    to the caller as it came and store nothing; only a transport failure
    sends them to the cache and the fallback. *)
Theorem failure_handling_by_class (request : Request) (env : Env) (w : World)
    (r : Response) :
  net env (url request) = Some r → ok r = false →
  let down := mkEnv (fun _ => None) (now env) in
  handleApiRequest request env w = handleApiRequest request down w
  ∧ (∃ resp w', handleApiRequest request down w = (Ok resp, w'))
  ∧ (∃ resp w', handleStaticRequest request down w = (Ok resp, w'))
  ∧ (∃ resp w', handleDynamicRequest request down w = (Ok resp, w'))
  ∧ handleDynamicRequest request env w
    = (Ok r, mkWorld (caches w) (trace w ++ [EFetch (url request)]))
  ∧ handleDynamicRequest request down w
    = (Ok (default service_unavailable (Store.match_all (url request) (caches w))),
       mkWorld (caches w)
         (trace w ++ [EFetch (url request); EMatchAll (url request)]))
  ∧ match Store.match_all (url request) (caches w) with
    | Some c => (handleStaticRequest request env w).1 = Ok c
    | None =>
        handleStaticRequest request env w
        = (Ok r, mkWorld (caches w)
                   (trace w ++ [EMatchAll (url request); EFetch (url request)]))
    end.
Proof.
  intros Hnet Hok down.
  split; [apply (handleApiRequest_non_ok_as_down _ _ _ _ Hnet Hok) |].
  split; [apply handleApiRequest_never_throws |].
  split; [apply handleStaticRequest_never_throws |].
  split; [apply handleDynamicRequest_never_throws |].
  split.
  { rewrite (handleDynamicRequest_answer _ _ _ _ Hnet), Hok. reflexivity. }
  split; [apply handleDynamicRequest_offline; reflexivity |].
  destruct (Store.match_all (url request) (caches w)) as [c |] eqn:Hm.
  - rewrite (handleStaticRequest_hit_run _ _ _ _ Hm). reflexivity.
  - rewrite (handleStaticRequest_miss_answer _ _ _ _ Hm Hnet), Hok. reflexivity.
Qed.

Lemma failure_handling_by_class_witness :
  net (Sample.online Sample.not_found 1000) (url Sample.forecast)
    = Some Sample.not_found
  ∧ ok Sample.not_found = false
  ∧ handleApiRequest Sample.forecast (Sample.online Sample.not_found 1000)
      (Sample.with_api_entry 0)
    = handleApiRequest Sample.forecast (Sample.offline 1000)
        (Sample.with_api_entry 0)
  ∧ handleDynamicRequest Sample.forecast (Sample.online Sample.not_found 1000)
      (Sample.with_api_entry 0)
    = (Ok Sample.not_found,
       mkWorld (caches (Sample.with_api_entry 0))
         [EFetch (url Sample.forecast)]).
Proof.
  split; [reflexivity |]. split; [reflexivity |].
  pose proof (failure_handling_by_class Sample.forecast
                (Sample.online Sample.not_found 1000) (Sample.with_api_entry 0)
                Sample.not_found eq_refl eq_refl) as H.
  cbv zeta in H. destruct H as [Hapi [_ [_ [_ [Hdyn _]]]]].
  split; [exact Hapi | exact Hdyn].
Defined.

(** C5, as stated, fails for the static and the dynamic class: a 404
    answer is handed to the caller as it came, while a transport failure
    is answered by the fallback or from the cache. *)
Lemma non_ok_answer_is_passed_through :
  let answered := Sample.online Sample.not_found 1000 in
  let failed := Sample.offline 1000 in
  ok Sample.not_found = false
  ∧ classify Sample.styles = Some static
  ∧ (handleStaticRequest Sample.styles answered Sample.empty_world).1
    = Ok Sample.not_found
  ∧ (handleStaticRequest Sample.styles failed Sample.empty_world).1
    = Ok service_unavailable
  ∧ (handleDynamicRequest Sample.avatar answered Sample.avatar_in_api_only).1
    = Ok Sample.not_found
  ∧ (handleDynamicRequest Sample.avatar failed Sample.avatar_in_api_only).1
    = Ok (Sample.stored "png" 0)
  ∧ Sample.not_found ≠ service_unavailable
  ∧ Sample.not_found ≠ Sample.stored "png" 0.
Proof.
  cbv zeta. repeat split; try (vm_compute; reflexivity);
    vm_compute; discriminate.
Qed.

(** ** Which namespaces a lookup sees *)

Lemma find_elem (name : string) (c : gmap string Response)
    (cs : list (string * gmap string Response)) :
  Store.find name cs = Some c → (name, c) ∈ cs.
Proof.
  induction cs as [| [n c'] cs IH]; simpl; [discriminate |].
  destruct (String.eqb_spec n name) as [-> | Hne].
  - intros [= ->]. left.
  - intros H. right. auto.
Qed.

Lemma find_of_elem (name : string) (c : gmap string Response)
    (cs : list (string * gmap string Response)) :
  NoDup (Store.keys cs) → (name, c) ∈ cs → Store.find name cs = Some c.
Proof.
  unfold Store.keys. induction cs as [| [n c'] cs IH]; intros Hnd Hin;
    [inversion Hin |].
  simpl in *. apply NoDup_cons in Hnd. destruct Hnd as [Hfresh Hnd].
  destruct (String.eqb_spec n name) as [-> | Hne].
  - inversion Hin as [| ? ? ? Hin']; subst; [reflexivity |].
    exfalso. apply Hfresh. apply list_elem_of_fmap.
    exists (name, c). split; [reflexivity | exact Hin'].
  - inversion Hin; subst; [congruence | auto].
Qed.

(** C10.  Let the storage hold each cache name once, and let one
    namespace, under any name, be the only one that holds an entry for
    the request URL.  The static handler returns that entry, and so does
    the dynamic handler when the network fails: their lookup goes through
    every namespace.  The api handler on a failed network looks in the
    api namespace and nowhere else: it finds the entry exactly when the
    namespace is the api one (and then serves it unless it has expired),
    and answers with the synthesized response when the entry is held by
    any other namespace. *)
Theorem lookup_scope_by_class (request : Request) (env : Env) (w : World)
    (name : string) (cache : gmap string Response) (entry : Response) :
  NoDup (Store.keys (caches w)) →
  (name, cache) ∈ caches w →
  cache !! url request = Some entry →
  (∀ n' c', (n', c') ∈ caches w → (n', c') ≠ (name, cache) →
            c' !! url request = None) →
  let down := mkEnv (fun _ => None) (now env) in
  (handleStaticRequest request env w).1 = Ok entry
  ∧ (handleDynamicRequest request down w).1 = Ok entry
  ∧ (handleApiRequest request down w).1
    = Ok (if decide (name = API_CACHE)
          then (if isExpired (headers entry !! TIMESTAMP_HEADER) (now env)
                then api_offline_response else entry)
          else api_offline_response).
Proof.
  intros Hnd Hin Hentry Honly down.
  assert (Hm : Store.match_all (url request) (caches w) = Some entry).
  { apply (match_all_unique _ name cache); [assumption .. |].
    intros n' c' r' Hin' Hr'.
    destruct (decide ((n', c') = (name, cache))) as [[= -> ->] | Hne].
    - congruence.
    - rewrite (Honly n' c' Hin' Hne) in Hr'. discriminate. }
  split; [rewrite (handleStaticRequest_hit_run _ _ _ _ Hm); reflexivity |].
  split; [rewrite handleDynamicRequest_offline by reflexivity;
          cbn [fst]; rewrite Hm; reflexivity |].
  rewrite handleApiRequest_failure by exact I.
  unfold api_fallback. cbn [now].
  destruct (decide (name = API_CACHE)) as [-> | Hname].
  - assert (Hsome : entry_in API_CACHE (url request) (caches w) = Some entry).
    { unfold entry_in. rewrite (find_of_elem _ _ _ Hnd Hin). exact Hentry. }
    rewrite Hsome. destruct (isExpired _ _); reflexivity.
  - assert (Hnone : entry_in API_CACHE (url request) (caches w) = None).
    { unfold entry_in.
      destruct (Store.find API_CACHE (caches w)) as [c |] eqn:Hf;
        [| reflexivity].
      cbn. apply (Honly API_CACHE c); [apply find_elem; exact Hf | congruence]. }
    rewrite Hnone. reflexivity.
Qed.

Lemma lookup_scope_by_class_witness :
  ((handleStaticRequest Sample.forecast (Sample.offline 1000)
      Sample.forecast_in_dynamic_only).1 = Ok (Sample.stored "18C" 0)
   ∧ (handleDynamicRequest Sample.forecast (Sample.offline 1000)
        Sample.forecast_in_dynamic_only).1 = Ok (Sample.stored "18C" 0)
   ∧ (handleApiRequest Sample.forecast (Sample.offline 1000)
        Sample.forecast_in_dynamic_only).1 = Ok api_offline_response)
  ∧ ((handleStaticRequest Sample.forecast (Sample.offline 1000)
        (Sample.with_api_entry 0)).1 = Ok (Sample.stored "18C" 0)
     ∧ (handleDynamicRequest Sample.forecast (Sample.offline 1000)
          (Sample.with_api_entry 0)).1 = Ok (Sample.stored "18C" 0)
     ∧ (handleApiRequest Sample.forecast (Sample.offline 1000)
          (Sample.with_api_entry 0)).1 = Ok (Sample.stored "18C" 0)).
Proof.
  split.
  - pose proof (lookup_scope_by_class Sample.forecast (Sample.offline 1000)
                  Sample.forecast_in_dynamic_only DYNAMIC_CACHE
                  {[ url Sample.forecast := Sample.stored "18C" 0 ]}
                  (Sample.stored "18C" 0)) as H.
    cbv zeta in H. rewrite decide_False in H by discriminate. apply H.
    + apply (bool_decide_unpack _). vm_compute. exact I.
    + apply list_elem_of_In. simpl. auto.
    + reflexivity.
    + intros n' c' Hin Hne.
      unfold Sample.forecast_in_dynamic_only in Hin. cbn [caches] in Hin.
      apply list_elem_of_In in Hin. simpl in Hin.
      destruct Hin as [[= <- <-] | [[= <- <-] | [[= <- <-] | []]]];
        [reflexivity | reflexivity | exfalso; apply Hne; reflexivity].
  - pose proof (lookup_scope_by_class Sample.forecast (Sample.offline 1000)
                  (Sample.with_api_entry 0) API_CACHE
                  {[ url Sample.forecast := Sample.stored "18C" 0 ]}
                  (Sample.stored "18C" 0)) as H.
    cbv zeta in H. rewrite decide_True in H by reflexivity. apply H.
    + apply (bool_decide_unpack _). vm_compute. exact I.
    + apply list_elem_of_In. simpl. auto.
    + reflexivity.
    + intros n' c' Hin Hne.
      unfold Sample.with_api_entry in Hin. cbn [caches] in Hin.
      apply list_elem_of_In in Hin. simpl in Hin.
      destruct Hin as [[= <- <-] | [[= <- <-] | []]];
        [reflexivity | exfalso; apply Hne; reflexivity].
Defined.

(** An entry written by the api handler is what the static handler
    returns for the same URL when no other namespace holds one. *)
Lemma static_serves_entry_written_by_api :
  let after_api := (handleApiRequest Sample.forecast
                      (Sample.online Sample.fresh_body 1000)
                      Sample.empty_world).2 in
  Store.keys (caches after_api) = [API_CACHE]
  ∧ (handleStaticRequest Sample.forecast (Sample.offline 2000) after_api).1
    = Ok (with_timestamp Sample.fresh_body 1000).
Proof. cbv zeta. split; vm_compute; reflexivity. Qed.

(** * Further properties of the script *)

(** ** Which entries a handler run can change *)

Lemma handleApiRequest_caches (request : Request) (env : Env) (w : World) :
  caches_after (handleApiRequest request) env w =
    match net env (url request) with
    | Some r =>
        if ok r then
          Store.put API_CACHE (url request) (with_timestamp r (now env))
            (Store.open API_CACHE (caches w))
        else (api_fallback request (now env) (caches w)).1.2
    | None => (api_fallback request (now env) (caches w)).1.2
    end.
Proof.
  unfold caches_after.
  destruct (net env (url request)) as [r |] eqn:Hnet.
  - destruct (ok r) eqn:Hok.
    + rewrite (handleApiRequest_success _ _ _ _ Hnet Hok). reflexivity.
    + rewrite handleApiRequest_failure
        by (unfold network_failed; rewrite Hnet; exact Hok).
      destruct (api_fallback _ _ _) as [[resp cs] evs]. reflexivity.
  - rewrite handleApiRequest_failure
      by (unfold network_failed; rewrite Hnet; exact I).
    destruct (api_fallback _ _ _) as [[resp cs] evs]. reflexivity.
Qed.

Lemma api_fallback_entries (request : Request) (t : Z)
    (cs : list (string * gmap string Response)) (name u : string) :
  entry_in name u (api_fallback request t cs).1.2 = entry_in name u cs
  ∨ (name = API_CACHE ∧ u = url request
     ∧ entry_in name u (api_fallback request t cs).1.2 = None).
Proof.
  unfold api_fallback.
  destruct (entry_in API_CACHE (url request) cs) as [c |];
    [destruct (isExpired _ _) |]; cbn [fst snd].
  - rewrite entry_in_delete. case_decide as H; [right | left; reflexivity].
    destruct H as [-> ->]. auto.
  - left. apply entry_in_open_any.
  - left. apply entry_in_open_any.
Qed.

Lemma handleApiRequest_frame (request : Request) (env : Env) (w : World)
    (name u : string) :
  ¬ (name = API_CACHE ∧ u = url request) →
  entry_in name u (caches_after (handleApiRequest request) env w)
  = entry_in name u (caches w).
Proof.
  intros Hother. rewrite handleApiRequest_caches.
  assert (Hfb : entry_in name u (api_fallback request (now env) (caches w)).1.2
                = entry_in name u (caches w)).
  { destruct (api_fallback_entries request (now env) (caches w) name u)
      as [H | [Hn [Hu _]]]; [exact H | tauto]. }
  destruct (net env (url request)) as [r |]; [destruct (ok r) |];
    try exact Hfb.
  rewrite entry_in_put. rewrite decide_False by exact Hother. reflexivity.
Qed.

Lemma handleStaticRequest_caches (request : Request) (env : Env) (w : World) :
  caches_after (handleStaticRequest request) env w =
    match Store.match_all (url request) (caches w), net env (url request) with
    | None, Some r =>
        if ok r then
          Store.put CACHE_NAME (url request) (with_timestamp r (now env))
            (Store.open CACHE_NAME (caches w))
        else caches w
    | _, _ => caches w
    end.
Proof.
  unfold caches_after.
  destruct (Store.match_all (url request) (caches w)) as [c |] eqn:Hm.
  - rewrite (handleStaticRequest_hit_run _ _ _ _ Hm). reflexivity.
  - destruct (net env (url request)) as [r |] eqn:Hnet.
    + rewrite (handleStaticRequest_miss_answer _ _ _ _ Hm Hnet).
      destruct (ok r); reflexivity.
    + rewrite (handleStaticRequest_miss_offline _ _ _ Hm Hnet). reflexivity.
Qed.

Lemma handleDynamicRequest_caches (request : Request) (env : Env) (w : World) :
  caches_after (handleDynamicRequest request) env w =
    match net env (url request) with
    | Some r =>
        if ok r then
          Store.put DYNAMIC_CACHE (url request) r
            (Store.open DYNAMIC_CACHE (caches w))
        else caches w
    | None => caches w
    end.
Proof.
  unfold caches_after.
  destruct (net env (url request)) as [r |] eqn:Hnet.
  - rewrite (handleDynamicRequest_answer _ _ _ _ Hnet).
    destruct (ok r); reflexivity.
  - rewrite (handleDynamicRequest_offline _ _ _ Hnet). reflexivity.
Qed.

Lemma handleStaticRequest_frame (request : Request) (env : Env) (w : World)
    (name u : string) :
  ¬ (name = CACHE_NAME ∧ u = url request) →
  entry_in name u (caches_after (handleStaticRequest request) env w)
  = entry_in name u (caches w).
Proof.
  intros Hother. rewrite handleStaticRequest_caches.
  destruct (Store.match_all _ _); [reflexivity |].
  destruct (net env (url request)) as [r |]; [| reflexivity].
  destruct (ok r); [| reflexivity].
  rewrite entry_in_put. rewrite decide_False by exact Hother. reflexivity.
Qed.

Lemma handleDynamicRequest_frame (request : Request) (env : Env) (w : World)
    (name u : string) :
  ¬ (name = DYNAMIC_CACHE ∧ u = url request) →
  entry_in name u (caches_after (handleDynamicRequest request) env w)
  = entry_in name u (caches w).
Proof.
  intros Hother. rewrite handleDynamicRequest_caches.
  destruct (net env (url request)) as [r |]; [| reflexivity].
  destruct (ok r); [| reflexivity].
  rewrite entry_in_put. rewrite decide_False by exact Hother. reflexivity.
Qed.

(** X1.  A run of a request handler changes at most one entry of the
    storage: the one for the request URL in the handler's own namespace
    (api, static, dynamic).  Every other entry of every namespace reads
    the same before and after. *)
Theorem handlers_touch_only_their_own_entry (request : Request) (env : Env)
    (w : World) (name u : string) :
  ((name = API_CACHE ∧ u = url request)
   ∨ entry_in name u (caches_after (handleApiRequest request) env w)
     = entry_in name u (caches w))
  ∧ ((name = CACHE_NAME ∧ u = url request)
     ∨ entry_in name u (caches_after (handleStaticRequest request) env w)
       = entry_in name u (caches w))
  ∧ ((name = DYNAMIC_CACHE ∧ u = url request)
     ∨ entry_in name u (caches_after (handleDynamicRequest request) env w)
       = entry_in name u (caches w)).
Proof.
  split; [| split].
  - destruct (decide (name = API_CACHE ∧ u = url request)); [left; assumption |].
    right. apply handleApiRequest_frame. assumption.
  - destruct (decide (name = CACHE_NAME ∧ u = url request)); [left; assumption |].
    right. apply handleStaticRequest_frame. assumption.
  - destruct (decide (name = DYNAMIC_CACHE ∧ u = url request));
      [left; assumption |].
    right. apply handleDynamicRequest_frame. assumption.
Qed.

(** X2.  The static handler never deletes and never overwrites: an entry
    that any namespace holds before a run is still there, unchanged,
    after it, whatever the network answers. *)
Theorem static_handler_keeps_every_entry (request : Request) (env : Env)
    (w : World) (name u : string) (entry : Response) :
  entry_in name u (caches w) = Some entry →
  entry_in name u (caches_after (handleStaticRequest request) env w) = Some entry.
Proof.
  intros He. rewrite handleStaticRequest_caches.
  destruct (Store.match_all (url request) (caches w)) eqn:Hm; [exact He |].
  destruct (net env (url request)) as [r |]; [| exact He].
  destruct (ok r); [| exact He].
  rewrite entry_in_put. case_decide as H; [| exact He].
  destruct H as [-> ->].
  rewrite (match_all_none_entry _ _ _ Hm) in He. discriminate.
Qed.

Lemma static_handler_keeps_every_entry_witness :
  entry_in CACHE_NAME (url Sample.styles)
    (caches_after (handleStaticRequest Sample.styles)
       (Sample.online Sample.fresh_body (25 * Sample.HOUR))
       Sample.with_static_entry)
  = Some (Sample.stored "old body" 0).
Proof.
  apply (static_handler_keeps_every_entry Sample.styles
           (Sample.online Sample.fresh_body (25 * Sample.HOUR))
           Sample.with_static_entry).
  reflexivity.
Defined.

(** ** Storing a response and reading it back *)

Lemma with_timestamp_other_header (r : Response) (t : Z) (h : string) :
  h ≠ TIMESTAMP_HEADER →
  headers (with_timestamp r t) !! h = headers r !! h.
Proof. intros Hne. unfold with_timestamp. cbn. apply lookup_insert_ne. auto. Qed.

(** X3.  Stamping a response and reading the stamp back gives the time
    of storing, whatever the response carried before, also a
    [sw-cache-timestamp] header of its own; status, status text, body and
    every other header are kept. *)
Theorem timestamp_round_trip (r : Response) (t : Z) (h : string) :
  storedAt (with_timestamp r t) = Some t
  ∧ status (with_timestamp r t) = status r
  ∧ statusText (with_timestamp r t) = statusText r
  ∧ body (with_timestamp r t) = body r
  ∧ (h = TIMESTAMP_HEADER
     ∨ headers (with_timestamp r t) !! h = headers r !! h).
Proof.
  split; [apply storedAt_with_timestamp |].
  repeat (split; [reflexivity |]).
  destruct (decide (h = TIMESTAMP_HEADER)); [left; assumption |].
  right. apply with_timestamp_other_header. assumption.
Qed.

(** X4.  A static request for a URL that no namespace holds, answered by
    the network with a 2xx response that the cache stores, returns the
    answer and stores it stamped with the time; the next static request
    for the URL returns the stored response under every network, without
    a fetch and without touching the storage. *)
Theorem static_miss_then_hit (request : Request) (env env' : Env) (w : World)
    (r : Response) :
  Store.match_all (url request) (caches w) = None →
  net env (url request) = Some r → ok r = true → Store.accepts r = true →
  let w1 := (handleStaticRequest request env w).2 in
  let w2 := (handleStaticRequest request env' w1).2 in
  response_of (handleStaticRequest request) env w = Some r
  ∧ entry_in CACHE_NAME (url request) (caches w1)
    = Some (with_timestamp r (now env))
  ∧ response_of (handleStaticRequest request) env' w1
    = Some (with_timestamp r (now env))
  ∧ caches w2 = caches w1
  ∧ ∃ evs, added w1 w2 evs ∧ forallb (fun e => negb (is_fetch e)) evs = true.
Proof.
  intros Hmiss Hnet Hok Hacc. cbv zeta. unfold response_of.
  rewrite <- (accepts_with_timestamp r (now env)) in Hacc.
  rewrite (handleStaticRequest_miss_answer _ _ _ _ Hmiss Hnet), Hok.
  cbn [fst snd caches].
  split; [reflexivity |].
  split; [apply entry_in_put_accepted; exact Hacc |].
  pose proof (match_all_put_fresh (url request) CACHE_NAME
                (with_timestamp r (now env)) (caches w) Hacc Hmiss) as Hhit.
  erewrite handleStaticRequest_hit_run by exact Hhit.
  cbn [fst snd caches trace].
  split; [reflexivity |]. split; [reflexivity |].
  eexists. split; [reflexivity | apply no_fetch_in_static_hit].
Qed.

Lemma static_miss_then_hit_witness :
  response_of (handleStaticRequest Sample.styles)
    (Sample.offline (30 * Sample.HOUR))
    (handleStaticRequest Sample.styles (Sample.online Sample.fresh_body 1000)
       Sample.empty_world).2
  = Some (with_timestamp Sample.fresh_body 1000).
Proof.
  pose proof (static_miss_then_hit Sample.styles
                (Sample.online Sample.fresh_body 1000)
                (Sample.offline (30 * Sample.HOUR))
                Sample.empty_world Sample.fresh_body
                eq_refl eq_refl eq_refl eq_refl) as H.
  cbv zeta in H. destruct H as [_ [_ [H _]]]. exact H.
Defined.

(** X5.  A 2xx api response that the cache stores, stored at time [t],
    is what a later failing request for the same URL gets as long as no
    more than ten minutes have passed; after that the failing request
    gets the synthesized offline response. *)
Theorem api_store_then_fallback (request : Request) (env env' : Env) (w : World)
    (r : Response) :
  net env (url request) = Some r → ok r = true → Store.accepts r = true →
  network_failed env' (url request) →
  let w1 := (handleApiRequest request env w).2 in
  response_of (handleApiRequest request) env' w1
  = Some (if now env' - now env <=? API_CACHE_DURATION
          then with_timestamp r (now env)
          else api_offline_response).
Proof.
  intros Hnet Hok Hacc Hfail. cbv zeta. unfold response_of.
  rewrite <- (accepts_with_timestamp r (now env)) in Hacc.
  rewrite (handleApiRequest_success _ _ _ _ Hnet Hok). cbn [snd].
  rewrite (handleApiRequest_failure _ _ _ Hfail). cbn [caches].
  unfold api_fallback. rewrite (entry_in_put_accepted _ _ _ _ Hacc).
  rewrite (isExpired_of_storedAt _ (now env)) by apply storedAt_with_timestamp.
  destruct (now env' - now env <=? API_CACHE_DURATION); reflexivity.
Qed.

Lemma api_store_then_fallback_witness :
  response_of (handleApiRequest Sample.forecast) (Sample.offline (1000 + 600000))
    (handleApiRequest Sample.forecast (Sample.online Sample.fresh_body 1000)
       Sample.empty_world).2
  = Some (with_timestamp Sample.fresh_body 1000).
Proof.
  exact (api_store_then_fallback Sample.forecast
           (Sample.online Sample.fresh_body 1000)
           (Sample.offline (1000 + 600000))
           Sample.empty_world Sample.fresh_body eq_refl eq_refl eq_refl I).
Defined.

(** X6.  A 2xx answer to a dynamic request that the cache stores, for a
    URL that no namespace holds, is stored as it came, without a stamp,
    and is what a later request gets when the network is down. *)
Theorem dynamic_store_then_fallback (request : Request) (env env' : Env)
    (w : World) (r : Response) :
  Store.match_all (url request) (caches w) = None →
  net env (url request) = Some r → ok r = true → Store.accepts r = true →
  net env' (url request) = None →
  let w1 := (handleDynamicRequest request env w).2 in
  response_of (handleDynamicRequest request) env w = Some r
  ∧ entry_in DYNAMIC_CACHE (url request) (caches w1) = Some r
  ∧ response_of (handleDynamicRequest request) env' w1 = Some r.
Proof.
  intros Hmiss Hnet Hok Hacc Hdown. cbv zeta. unfold response_of.
  rewrite (handleDynamicRequest_answer _ _ _ _ Hnet), Hok. cbn [fst snd caches].
  split; [reflexivity |].
  split; [apply entry_in_put_accepted; exact Hacc |].
  rewrite (handleDynamicRequest_offline _ _ _ Hdown). cbn [fst caches].
  rewrite (match_all_put_fresh _ _ _ _ Hacc Hmiss). reflexivity.
Qed.

Lemma dynamic_store_then_fallback_witness :
  response_of (handleDynamicRequest Sample.avatar) (Sample.offline 5000)
    (handleDynamicRequest Sample.avatar (Sample.online Sample.fresh_body 1000)
       Sample.empty_world).2
  = Some Sample.fresh_body.
Proof.
  pose proof (dynamic_store_then_fallback Sample.avatar
                (Sample.online Sample.fresh_body 1000) (Sample.offline 5000)
                Sample.empty_world Sample.fresh_body
                eq_refl eq_refl eq_refl eq_refl eq_refl) as H.
  cbv zeta in H. destruct H as [_ [_ H]]. exact H.
Defined.

(** X7.  The fallback of the dynamic handler is not the response it
    stored last: when the namespace created first (any but the dynamic
    one) already holds the URL, a 2xx answer goes to the dynamic
    namespace (it is stored there when the cache stores it), and a later
    request with the network down still gets the entry of the first
    namespace. *)
Theorem dynamic_fallback_prefers_first_namespace (request : Request)
    (env env' : Env) (w : World) (first : string) (c : gmap string Response)
    (rest : list (string * gmap string Response)) (old r : Response) :
  caches w = (first, c) :: rest → first ≠ DYNAMIC_CACHE →
  c !! url request = Some old →
  net env (url request) = Some r → ok r = true →
  net env' (url request) = None →
  let w1 := (handleDynamicRequest request env w).2 in
  entry_in DYNAMIC_CACHE (url request) (caches w1)
  = (if Store.accepts r then Some r
     else entry_in DYNAMIC_CACHE (url request) (caches w))
  ∧ response_of (handleDynamicRequest request) env' w1 = Some old.
Proof.
  intros Hcs Hfirst Hold Hnet Hok Hdown. cbv zeta. unfold response_of.
  rewrite (handleDynamicRequest_answer _ _ _ _ Hnet), Hok. cbn [fst snd caches].
  split; [rewrite entry_in_put; rewrite decide_True by auto; reflexivity |].
  rewrite (handleDynamicRequest_offline _ _ _ Hdown). cbn [fst caches].
  rewrite Hcs, (match_all_put_shadowed _ _ _ _ old) by assumption.
  reflexivity.
Qed.

Lemma dynamic_fallback_prefers_first_namespace_witness :
  response_of (handleDynamicRequest Sample.styles) (Sample.offline 5000)
    (handleDynamicRequest Sample.styles (Sample.online Sample.fresh_body 1000)
       Sample.with_static_entry).2
  = Some (Sample.stored "old body" 0).
Proof.
  pose proof (dynamic_fallback_prefers_first_namespace Sample.styles
                (Sample.online Sample.fresh_body 1000) (Sample.offline 5000)
                Sample.with_static_entry CACHE_NAME
                {[ url Sample.styles := Sample.stored "old body" 0 ]} []
                (Sample.stored "old body" 0) Sample.fresh_body
                eq_refl) as H.
  cbv zeta in H. apply H; try reflexivity. discriminate.
Defined.

(** ** The install step when every asset is answered *)

Lemma on_install_prefetched (origin : string) (env : Env) (w : World) :
  prefetch_ok origin env = true →
  let requests := map (resolve origin) STATIC_CACHE_URLS in
  on_install origin env w =
    (Installed,
     mkWorld
       (fold_left (store_answer CACHE_NAME)
          (map (fun u => (u, net env u)) requests)
          (Store.open CACHE_NAME (caches w)))
       (trace w ++ [ELog "Service Worker: Installing..."; EOpen CACHE_NAME;
                    ELog "Service Worker: Caching static assets"]
          ++ map EFetch requests
          ++ put_events CACHE_NAME (map (fun u => (u, net env u)) requests)
          ++ [ESkipWaiting])).
Proof.
  intros Hgood. cbv zeta. unfold on_install. erewrite bind_ok by reflexivity.
  unfold install_promise, try_catch.
  erewrite (bind_ok (caches_open CACHE_NAME)) by reflexivity.
  erewrite (bind_ok (console_log _)) by reflexivity.
  erewrite (bind_ok (cache_addAll _ _ _))
    by (rewrite cache_addAll_run; cbv zeta; fold (prefetch_ok origin env);
        rewrite Hgood; reflexivity).
  unfold skipWaiting, emit. cbn [caches trace].
  rewrite <- !app_assoc. reflexivity.
Qed.

Lemma entry_in_update_insert (name u n k : string) (r : Response)
    (cs : list (string * gmap string Response)) :
  is_Some (Store.find n cs) →
  entry_in name u (Store.update n (fun c => <[k := r]> c) cs)
  = if decide (name = n ∧ u = k) then Some r else entry_in name u cs.
Proof.
  intros [c Hc]. rewrite <- entry_in_update_open.
  unfold Store.open. rewrite Hc. reflexivity.
Qed.

Lemma find_update_is_Some (n : string)
    (f : gmap string Response → gmap string Response)
    (cs : list (string * gmap string Response)) :
  is_Some (Store.find n cs) → is_Some (Store.find n (Store.update n f cs)).
Proof. intros [c Hc]. rewrite find_update_same, Hc. eauto. Qed.

(** The entries after storing the answers for [urls], all of them
    present and accepted: the answer for a URL of the list, the old entry
    otherwise. *)
Lemma entry_in_stored_answers (env : Env) (cache name u : string)
    (urls : list string) (cs : list (string * gmap string Response)) :
  is_Some (Store.find cache cs) →
  (∀ v, v ∈ urls → ∃ r, net env v = Some r ∧ Store.accepts r = true) →
  entry_in name u
    (fold_left (store_answer cache) (map (fun v => (v, net env v)) urls) cs)
  = if decide (name = cache ∧ u ∈ urls) then net env u else entry_in name u cs.
Proof.
  revert cs. induction urls as [| v urls IH]; intros cs Hfound Hall.
  - simpl. rewrite decide_False; [reflexivity |].
    intros [_ H]. inversion H.
  - cbn [map fold_left]. unfold store_answer at 2. cbn [fst snd].
    destruct (Hall v (list_elem_of_here _ _)) as [r [Hr Hacc]]. rewrite Hr.
    rewrite put_accepted by exact Hacc.
    rewrite IH;
      [| apply find_update_is_Some; exact Hfound
       | intros v' Hv'; apply Hall; right; exact Hv'].
    rewrite entry_in_update_insert by exact Hfound.
    destruct (decide (name = cache ∧ u ∈ urls)) as [[Hn Hin] | Hno].
    + rewrite decide_True by (split; [exact Hn | right; exact Hin]).
      reflexivity.
    + destruct (decide (name = cache ∧ u = v)) as [[Hn ->] | Hno'].
      * rewrite decide_True by (split; [exact Hn | left]).
        symmetry. exact Hr.
      * rewrite decide_False; [reflexivity |].
        intros [Hn Hin]. inversion Hin; subst; [apply Hno' | apply Hno]; auto.
Qed.

Lemma prefetch_ok_answers (origin : string) (env : Env) :
  prefetch_ok origin env = true →
  ∀ v, In v (map (resolve origin) STATIC_CACHE_URLS) →
       ∃ r, net env v = Some r ∧ ok r = true ∧ Store.accepts r = true.
Proof.
  unfold prefetch_ok. rewrite forallb_forall. intros H v Hv.
  specialize (H v Hv). destruct (net env v) as [r |]; [| discriminate].
  unfold addable in H. apply andb_true_iff in H. exists r. tauto.
Qed.

Lemma on_install_entries (origin : string) (env : Env) (w : World)
    (name u : string) :
  entry_in name u (caches (on_install origin env w).2)
  = if decide (prefetch_ok origin env = true ∧ name = CACHE_NAME
               ∧ u ∈ map (resolve origin) STATIC_CACHE_URLS)
    then net env u else entry_in name u (caches w).
Proof.
  destruct (prefetch_ok origin env) eqn:Hp.
  - rewrite (on_install_prefetched _ _ _ Hp). cbn [snd caches].
    rewrite entry_in_stored_answers.
    + rewrite entry_in_open_any.
      destruct (decide (name = CACHE_NAME
                        ∧ u ∈ map (resolve origin) STATIC_CACHE_URLS)).
      * rewrite decide_True by tauto. reflexivity.
      * rewrite decide_False by tauto. reflexivity.
    + rewrite find_open_same. eauto.
    + intros v Hv. apply list_elem_of_In in Hv.
      destruct (prefetch_ok_answers origin env Hp v Hv) as [r [Hr [_ Hacc]]].
      eauto.
  - rewrite (on_install_failed_prefetch _ _ _ Hp). cbn [snd caches].
    rewrite decide_False by (intros [H _]; discriminate).
    apply entry_in_open_any.
Qed.




(** X9.  A failed prefetch changes no entry of any namespace, does not
    ask to skip waiting, and still reports the install step as done. *)
Theorem install_failure_changes_no_entry (origin : string) (env : Env)
    (w : World) (name u : string) :
  prefetch_ok origin env = false →
  let w' := (on_install origin env w).2 in
  (on_install origin env w).1 = Installed
  ∧ entry_in name u (caches w') = entry_in name u (caches w)
  ∧ ∃ evs, added w w' evs ∧ ¬ In ESkipWaiting evs.
Proof.
  intros Hp. cbv zeta.
  split; [rewrite (on_install_failed_prefetch _ _ _ Hp); reflexivity |].
  split.
  { rewrite on_install_entries. rewrite decide_False; [reflexivity |].
    intros [H _]. congruence. }
  rewrite (on_install_failed_prefetch _ _ _ Hp). cbn [snd].
  eexists. split; [reflexivity |].
  rewrite !in_app_iff, in_map_iff. cbn [In].
  intros [[H | [H | [H | []]]] | [[v [H _]] | [H | []]]]; discriminate.
Qed.

Lemma install_failure_changes_no_entry_witness :
  entry_in CACHE_NAME (url Sample.styles)
    (caches (on_install Sample.ORIGIN (Sample.one_asset_down 1000)
               Sample.with_static_entry).2)
  = Some (Sample.stored "old body" 0).
Proof.
  pose proof (install_failure_changes_no_entry Sample.ORIGIN
                (Sample.one_asset_down 1000)
                Sample.with_static_entry CACHE_NAME (url Sample.styles)
                eq_refl) as H.
  cbv zeta in H. destruct H as [_ [H _]]. rewrite H. reflexivity.
Defined.

(** ** Activation, entry by entry *)

Lemma find_only_named (keep name : string)
    (cs : list (string * gmap string Response)) :
  Store.find name (List.filter (fun nc => String.eqb nc.1 keep) cs)
  = if String.eqb name keep then Store.find name cs else None.
Proof.
  induction cs as [| [n c] cs IH]; simpl.
  - destruct (String.eqb name keep); reflexivity.
  - destruct (String.eqb_spec n keep) as [-> | Hn]; simpl.
    + rewrite IH. rewrite (String.eqb_sym keep name).
      destruct (String.eqb name keep); reflexivity.
    + rewrite IH. destruct (String.eqb_spec name keep) as [-> | Hname];
        [| reflexivity].
      destruct (String.eqb_spec n keep); [contradiction | reflexivity].
Qed.

Lemma on_activate_entries (env : Env) (w : World) (name u : string) :
  entry_in name u (caches_after on_activate env w)
  = if String.eqb name CACHE_NAME then entry_in name u (caches w) else None.
Proof.
  unfold caches_after. rewrite on_activate_run. cbn [snd caches].
  unfold entry_in. rewrite find_only_named.
  destruct (String.eqb name CACHE_NAME); reflexivity.
Qed.

(** X10.  Activation never rejects and keeps exactly the entries of the
    static namespace: every entry held under the name [CACHE_NAME] reads
    the same afterwards, and no entry is left under any other name, the
    api and dynamic namespaces of the same version included. *)
Theorem activation_keeps_static_entries_only (env : Env) (w : World)
    (name u : string) :
  (on_activate env w).1 = Ok tt
  ∧ entry_in CACHE_NAME u (caches_after on_activate env w)
    = entry_in CACHE_NAME u (caches w)
  ∧ (name = CACHE_NAME ∨ entry_in name u (caches_after on_activate env w) = None).
Proof.
  split; [rewrite on_activate_run; reflexivity |].
  split; [rewrite on_activate_entries, String.eqb_refl; reflexivity |].
  destruct (String.eqb_spec name CACHE_NAME) as [-> | Hne];
    [left; reflexivity | right].
  rewrite on_activate_entries.
  destruct (String.eqb_spec name CACHE_NAME); [contradiction | reflexivity].
Qed.

Lemma filter_idem {A} (f : A → bool) (l : list A) :
  List.filter f (List.filter f l) = List.filter f l.
Proof.
  induction l as [| x l IH]; simpl; [reflexivity |].
  destruct (f x) eqn:E; simpl; [rewrite E; congruence | exact IH].
Qed.

(** X11.  Activating again changes nothing: the storage after a second
    activation, under any network and clock, is the storage after the
    first. *)
Theorem activation_is_idempotent (env env' : Env) (w : World) :
  caches_after on_activate env' (on_activate env w).2
  = caches_after on_activate env w.
Proof.
  unfold caches_after. rewrite !on_activate_run. cbn [snd caches].
  apply filter_idem.
Qed.

(** ** What holds of every storage the script produces *)

Lemma api_cache_is_not_static : API_CACHE ≠ CACHE_NAME.
Proof. discriminate. Qed.

Lemma api_cache_is_not_dynamic : API_CACHE ≠ DYNAMIC_CACHE.
Proof. discriminate. Qed.

Lemma api_fallback_stamped (request : Request) (t : Z)
    (cs : list (string * gmap string Response)) :
  api_entries_stamped cs → api_entries_stamped (api_fallback request t cs).1.2.
Proof.
  intros Hinv u entry He.
  destruct (api_fallback_entries request t cs API_CACHE u) as [H | [_ [_ H]]].
  - rewrite H in He. apply (Hinv u). exact He.
  - rewrite H in He. discriminate.
Qed.

Lemma reachable_api_stamped (cs : list (string * gmap string Response)) :
  reachable cs → api_entries_stamped cs.
Proof.
  induction 1 as [| origin env w _ IH | env w _ IH | request env w _ IH
                  | request env w _ IH | request env w _ IH];
    intros u entry He.
  - discriminate He.
  - rewrite on_install_entries in He.
    rewrite decide_False in He; [apply (IH u); exact He |].
    intros [_ [Hn _]]. exact (api_cache_is_not_static Hn).
  - rewrite on_activate_entries in He.
    destruct (String.eqb_spec API_CACHE CACHE_NAME) as [Hn | _];
      [exact (False_ind _ (api_cache_is_not_static Hn)) | discriminate].
  - rewrite handleApiRequest_caches in He.
    assert (Hfb := api_fallback_stamped request (now env) (caches w) IH u entry).
    destruct (net env (url request)) as [r |]; [destruct (ok r) |]; auto.
    rewrite entry_in_put in He. case_decide as Hk; [| apply (IH u); exact He].
    destruct (Store.accepts _); [| apply (IH u); exact He].
    injection He as <-. rewrite storedAt_with_timestamp. eauto.
  - rewrite handleStaticRequest_frame in He; [apply (IH u); exact He |].
    intros [Hn _]. exact (api_cache_is_not_static Hn).
  - rewrite handleDynamicRequest_frame in He; [apply (IH u); exact He |].
    intros [Hn _]. exact (api_cache_is_not_dynamic Hn).
Qed.

(** X12.  In every storage the script produces from an empty one, by any
    sequence of install, activate and request handling, each entry of the
    api namespace carries a timestamp that reads back as a number. *)
Theorem api_entries_are_always_stamped (cs : list (string * gmap string Response))
    (u : string) (entry : Response) :
  reachable cs → entry_in API_CACHE u cs = Some entry →
  ∃ t, storedAt entry = Some t.
Proof.
  intros Hr He. destruct (reachable_api_stamped cs Hr u entry He) as [t Ht].
  eauto.
Qed.

Lemma api_entries_are_always_stamped_witness :
  ∃ t, storedAt (with_timestamp Sample.fresh_body 1000) = Some t.
Proof.
  apply (api_entries_are_always_stamped
           (caches_after (handleApiRequest Sample.forecast)
              (Sample.online Sample.fresh_body 1000) Sample.empty_world)
           (url Sample.forecast)).
  - apply (reach_api Sample.forecast (Sample.online Sample.fresh_body 1000)
             Sample.empty_world). apply reach_start.
  - reflexivity.
Defined.

(** X13.  On such a storage a failing api request is never answered with
    an entry older than ten minutes: the answer is the synthesized offline
    response or an entry whose age is at most [API_CACHE_DURATION]. *)
Theorem api_fallback_age_is_bounded (request : Request) (env : Env) (w : World) :
  reachable (caches w) → network_failed env (url request) →
  ∃ resp,
    response_of (handleApiRequest request) env w = Some resp
    ∧ (resp = api_offline_response
       ∨ ∃ t, storedAt resp = Some t ∧ now env - t ≤ API_CACHE_DURATION).
Proof.
  intros Hr Hfail. unfold response_of.
  rewrite (handleApiRequest_failure _ _ _ Hfail). unfold api_fallback.
  destruct (entry_in API_CACHE (url request) (caches w)) as [entry |] eqn:He.
  - destruct (reachable_api_stamped _ Hr _ _ He) as [t Ht].
    rewrite (isExpired_of_storedAt _ _ _ Ht).
    destruct (Z.leb_spec (now env - t) API_CACHE_DURATION); cbn [negb fst].
    + exists entry. split; [reflexivity |]. right. eauto.
    + eexists. split; [reflexivity |]. left. reflexivity.
  - eexists. split; [reflexivity |]. left. reflexivity.
Qed.

Lemma api_fallback_age_is_bounded_witness :
  response_of (handleApiRequest Sample.forecast) (Sample.offline 5000)
    (handleApiRequest Sample.forecast (Sample.online Sample.fresh_body 1000)
       Sample.empty_world).2
  = Some (with_timestamp Sample.fresh_body 1000)
  ∧ ∃ resp,
      response_of (handleApiRequest Sample.forecast) (Sample.offline 5000)
        (handleApiRequest Sample.forecast (Sample.online Sample.fresh_body 1000)
           Sample.empty_world).2 = Some resp
      ∧ (resp = api_offline_response
         ∨ ∃ t, storedAt resp = Some t ∧ 5000 - t ≤ API_CACHE_DURATION).
Proof.
  split; [reflexivity |].
  apply (api_fallback_age_is_bounded Sample.forecast (Sample.offline 5000)
           (handleApiRequest Sample.forecast
              (Sample.online Sample.fresh_body 1000) Sample.empty_world).2).
  - apply (reach_api Sample.forecast (Sample.online Sample.fresh_body 1000)
             Sample.empty_world). apply reach_start.
  - exact I.
Defined.

Lemma keys_update (n : string) (f : gmap string Response → gmap string Response)
    (cs : list (string * gmap string Response)) :
  Store.keys (Store.update n f cs) = Store.keys cs.
Proof.
  unfold Store.keys. induction cs as [| [m c] cs IH]; simpl; [reflexivity |].
  destruct (String.eqb m n); simpl; congruence.
Qed.

Lemma find_none_not_key (n : string) (cs : list (string * gmap string Response)) :
  Store.find n cs = None → ¬ In n (Store.keys cs).
Proof.
  unfold Store.keys. induction cs as [| [m c] cs IH]; simpl; [tauto |].
  destruct (String.eqb_spec m n) as [-> | Hm]; [discriminate |].
  intros Hf [H | H]; [contradiction | exact (IH Hf H)].
Qed.

Lemma own_namespaces_open (n : string) (cs : list (string * gmap string Response)) :
  In n version_namespaces →
  own_namespaces_only cs → own_namespaces_only (Store.open n cs).
Proof.
  intros Hn [Hnd Hsub]. unfold Store.open.
  destruct (Store.find n cs) eqn:Hf; [split; assumption |].
  unfold own_namespaces_only, Store.keys. rewrite map_app. simpl. split.
  - apply NoDup_ListNoDup. apply NoDup_ListNoDup in Hnd.
    apply List.NoDup_app; [exact Hnd | repeat constructor; simpl; tauto |].
    intros x Hx [<- | []]. exact (find_none_not_key _ _ Hf Hx).
  - intros m Hm. apply in_app_iff in Hm. destruct Hm as [Hm | [<- | []]];
      [apply Hsub; exact Hm | exact Hn].
Qed.

Lemma own_namespaces_update (n : string)
    (f : gmap string Response → gmap string Response)
    (cs : list (string * gmap string Response)) :
  own_namespaces_only cs → own_namespaces_only (Store.update n f cs).
Proof. unfold own_namespaces_only. rewrite keys_update. tauto. Qed.

Lemma own_namespaces_put (n k : string) (r : Response)
    (cs : list (string * gmap string Response)) :
  own_namespaces_only cs → own_namespaces_only (Store.put n k r cs).
Proof.
  intros H. unfold Store.put. destruct (Store.accepts r); [| exact H].
  apply own_namespaces_update. exact H.
Qed.

Lemma own_namespaces_stored (cache : string)
    (answers : list (string * option Response))
    (cs : list (string * gmap string Response)) :
  own_namespaces_only cs →
  own_namespaces_only (fold_left (store_answer cache) answers cs).
Proof.
  revert cs. induction answers as [| [u [r |]] answers IH]; intros cs H;
    simpl; [exact H | |]; apply IH; [| exact H].
  unfold store_answer. simpl. apply own_namespaces_put. exact H.
Qed.

Lemma own_namespaces_filter (f : string * gmap string Response → bool)
    (cs : list (string * gmap string Response)) :
  own_namespaces_only cs → own_namespaces_only (List.filter f cs).
Proof.
  intros [Hnd Hsub]. unfold own_namespaces_only, Store.keys in *. split.
  - apply NoDup_ListNoDup. apply NoDup_ListNoDup in Hnd.
    induction cs as [| x cs IH]; simpl; [constructor |].
    inversion Hnd as [| ? ? Hx Hnd']; subst.
    assert (Hrest := IH Hnd' (fun n H => Hsub n (or_intror H))).
    destruct (f x); simpl; [| exact Hrest].
    constructor; [| exact Hrest].
    intros Hin. apply Hx. apply in_map_iff in Hin.
    destruct Hin as [y [Hy Hin]]. apply List.filter_In in Hin.
    apply in_map_iff. exists y. tauto.
  - intros n Hn. apply Hsub. apply in_map_iff in Hn.
    destruct Hn as [y [Hy Hin]]. apply List.filter_In in Hin.
    apply in_map_iff. exists y. tauto.
Qed.

Lemma api_fallback_own_namespaces (request : Request) (t : Z)
    (cs : list (string * gmap string Response)) :
  own_namespaces_only cs →
  own_namespaces_only (api_fallback request t cs).1.2.
Proof.
  intros H. unfold api_fallback.
  assert (Ho : own_namespaces_only (Store.open API_CACHE cs)).
  { apply own_namespaces_open; [simpl; tauto | exact H]. }
  destruct (entry_in API_CACHE (url request) cs); [destruct (isExpired _ _) |];
    cbn [fst snd]; try exact Ho.
  apply own_namespaces_update. exact Ho.
Qed.

(** X14.  In every storage the script produces from an empty one, no
    name occurs twice and every name is one of the three namespaces of
    this version: the static, the api and the dynamic one. *)
Theorem storage_holds_own_namespaces_only
    (cs : list (string * gmap string Response)) :
  reachable cs →
  NoDup (Store.keys cs)
  ∧ ∀ n, In n (Store.keys cs) →
         n = CACHE_NAME ∨ n = API_CACHE ∨ n = DYNAMIC_CACHE.
Proof.
  intros Hr.
  assert (H : own_namespaces_only cs).
  { induction Hr as [| origin env w _ IH | env w _ IH | request env w _ IH
                     | request env w _ IH | request env w _ IH].
    - split; [constructor | intros n []].
    - destruct (prefetch_ok origin env) eqn:Hp.
      + rewrite (on_install_prefetched _ _ _ Hp). cbn [snd caches].
        apply own_namespaces_stored, own_namespaces_open;
          [simpl; tauto | exact IH].
      + rewrite (on_install_failed_prefetch _ _ _ Hp). cbn [snd caches].
        apply own_namespaces_open; [simpl; tauto | exact IH].
    - unfold caches_after. rewrite on_activate_run. cbn [snd caches].
      apply own_namespaces_filter. exact IH.
    - rewrite handleApiRequest_caches.
      assert (Hfb := api_fallback_own_namespaces request (now env) _ IH).
      destruct (net env (url request)) as [r |]; [destruct (ok r) |]; auto.
      apply own_namespaces_put, own_namespaces_open;
        [simpl; tauto | exact IH].
    - rewrite handleStaticRequest_caches.
      destruct (Store.match_all _ _); [exact IH |].
      destruct (net env (url request)) as [r |]; [| exact IH].
      destruct (ok r); [| exact IH].
      apply own_namespaces_put, own_namespaces_open;
        [simpl; tauto | exact IH].
    - rewrite handleDynamicRequest_caches.
      destruct (net env (url request)) as [r |]; [| exact IH].
      destruct (ok r); [| exact IH].
      apply own_namespaces_put, own_namespaces_open;
        [simpl; tauto | exact IH]. }
  destruct H as [Hnd Hsub]. split; [exact Hnd |].
  intros n Hn. specialize (Hsub n Hn). simpl in Hsub.
  destruct Hsub as [<- | [<- | [<- | []]]]; auto.
Qed.

Lemma storage_holds_own_namespaces_only_witness :
  NoDup (Store.keys (caches_after (handleApiRequest Sample.forecast)
                       (Sample.online Sample.fresh_body 1000)
                       Sample.empty_world)).
Proof.
  apply (storage_holds_own_namespaces_only
           (caches_after (handleApiRequest Sample.forecast)
              (Sample.online Sample.fresh_body 1000) Sample.empty_world)).
  apply (reach_api Sample.forecast (Sample.online Sample.fresh_body 1000)
           Sample.empty_world). apply reach_start.
Defined.

(** ** Overwriting *)

Lemma update_ext (n : string) (f g : gmap string Response → gmap string Response)
    (cs : list (string * gmap string Response)) :
  (∀ c, f c = g c) → Store.update n f cs = Store.update n g cs.
Proof.
  intros Hfg. induction cs as [| [m c] cs IH]; simpl; [reflexivity |].
  destruct (String.eqb m n); [rewrite Hfg | rewrite IH]; reflexivity.
Qed.

Lemma update_update (n : string) (f g : gmap string Response → gmap string Response)
    (cs : list (string * gmap string Response)) :
  Store.update n f (Store.update n g cs) = Store.update n (fun c => f (g c)) cs.
Proof.
  induction cs as [| [m c] cs IH]; simpl; [reflexivity |].
  destruct (String.eqb m n) eqn:E; simpl; rewrite E; [| rewrite IH]; reflexivity.
Qed.

Lemma open_after_update (n : string) (f : gmap string Response → gmap string Response)
    (cs : list (string * gmap string Response)) :
  Store.open n (Store.update n f (Store.open n cs))
  = Store.update n f (Store.open n cs).
Proof.
  unfold Store.open at 1. rewrite find_update_same, find_open_same. reflexivity.
Qed.

Lemma open_open (n : string) (cs : list (string * gmap string Response)) :
  Store.open n (Store.open n cs) = Store.open n cs.
Proof. unfold Store.open at 1. rewrite find_open_same. reflexivity. Qed.

(** X15.  Last write wins for the api namespace: after two successful api
    requests for the same URL, the second with a response the cache
    stores, the storage is what the second alone would have left, so the
    URL has one entry, the later one. *)
Theorem api_second_success_overwrites_first (request : Request)
    (env env' : Env) (w : World) (r r' : Response) :
  net env (url request) = Some r → ok r = true →
  net env' (url request) = Some r' → ok r' = true → Store.accepts r' = true →
  let w1 := (handleApiRequest request env w).2 in
  caches_after (handleApiRequest request) env' w1
  = caches_after (handleApiRequest request) env' w
  ∧ entry_in API_CACHE (url request)
      (caches_after (handleApiRequest request) env' w1)
    = Some (with_timestamp r' (now env')).
Proof.
  intros Hnet Hok Hnet' Hok' Hacc'. cbv zeta. unfold caches_after.
  rewrite <- (accepts_with_timestamp r' (now env')) in Hacc'.
  rewrite (handleApiRequest_success _ _ _ _ Hnet Hok). cbn [snd].
  rewrite !(handleApiRequest_success _ _ _ _ Hnet' Hok'). cbn [snd caches].
  split; [| apply entry_in_put_accepted; exact Hacc'].
  rewrite !(put_accepted _ _ _ _ Hacc').
  unfold Store.put. destruct (Store.accepts (with_timestamp r (now env))).
  - rewrite open_after_update, update_update.
    apply update_ext. intros c. apply insert_insert_eq.
  - rewrite open_open. reflexivity.
Qed.

Lemma api_second_success_overwrites_first_witness :
  entry_in API_CACHE (url Sample.forecast)
    (caches_after (handleApiRequest Sample.forecast)
       (Sample.online (Sample.stored "21C" 0) 2000)
       (handleApiRequest Sample.forecast (Sample.online Sample.fresh_body 1000)
          Sample.empty_world).2)
  = Some (with_timestamp (Sample.stored "21C" 0) 2000).
Proof.
  pose proof (api_second_success_overwrites_first Sample.forecast
                (Sample.online Sample.fresh_body 1000)
                (Sample.online (Sample.stored "21C" 0) 2000)
                Sample.empty_world Sample.fresh_body (Sample.stored "21C" 0)
                eq_refl eq_refl eq_refl eq_refl eq_refl) as H.
  cbv zeta in H. destruct H as [_ H]. exact H.
Defined.

(** ** Freshness over time *)

Lemma age_exceeds_later (t t' : Z) (ts : string) (ttl : Z) :
  t ≤ t' → age_exceeds t ts ttl = true → age_exceeds t' ts ttl = true.
Proof.
  unfold age_exceeds. destruct (Num.parseInt ts); [| discriminate].
  rewrite !Z.ltb_lt. lia.
Qed.

(** X16.  Expiry is final: a timestamp that makes the api test report
    expiry, or the static test ask for a refresh, at one time does so at
    every later time. *)
Theorem expiry_is_monotone (cacheTimestamp : option string) (t t' : Z) :
  t ≤ t' →
  (isExpired cacheTimestamp t = true → isExpired cacheTimestamp t' = true)
  ∧ (shouldUpdate cacheTimestamp t = true → shouldUpdate cacheTimestamp t' = true).
Proof.
  intros Hle. unfold isExpired, shouldUpdate.
  destruct cacheTimestamp as [ts |]; [| auto].
  destruct (truthy (Some ts)); cbn [andb negb orb]; split; auto;
    apply age_exceeds_later; exact Hle.
Qed.

Lemma expiry_is_monotone_witness :
  1000 + API_CACHE_DURATION + 1 ≤ 1000 + API_CACHE_DURATION + 500
  ∧ isExpired (Some "1000") (1000 + API_CACHE_DURATION + 500) = true.
Proof.
  assert (H : 1000 + API_CACHE_DURATION + 1 ≤ 1000 + API_CACHE_DURATION + 500).
  { vm_compute. discriminate. }
  split; [exact H |].
  apply (proj1 (expiry_is_monotone (Some "1000") _ _ H)). reflexivity.
Defined.



(** ** The static handler with nothing cached and no network *)

(** X18.  A static request for a URL that no namespace holds, with the
    network down, changes nothing in the storage and is answered by the
    offline page when the [accept] header contains [text/html], by a 503
    response otherwise.  The offline page has status 200, so it counts
    as [ok]. *)
Theorem static_offline_fallback (request : Request) (env : Env) (w : World) :
  Store.match_all (url request) (caches w) = None →
  net env (url request) = None →
  response_of (handleStaticRequest request) env w
  = Some (if match accept request with
             | Some a => Str.includes a "text/html"
             | None => false
             end
          then offline_page else service_unavailable)
  ∧ caches_after (handleStaticRequest request) env w = caches w
  ∧ ok offline_page = true
  ∧ ok service_unavailable = false.
Proof.
  intros Hmiss Hdown. unfold response_of, caches_after.
  rewrite (handleStaticRequest_miss_offline _ _ _ Hmiss Hdown).
  repeat split; reflexivity.
Qed.

Lemma static_offline_fallback_witness :
  response_of (handleStaticRequest
                 (mkRequest "GET" "https://weatherflow.app/" "weatherflow.app"
                    (Some "text/html,application/xhtml+xml")))
    (Sample.offline 1000) Sample.empty_world
  = Some offline_page.
Proof.
  pose proof (static_offline_fallback
                (mkRequest "GET" "https://weatherflow.app/" "weatherflow.app"
                   (Some "text/html,application/xhtml+xml"))
                (Sample.offline 1000) Sample.empty_world eq_refl eq_refl) as H.
  destruct H as [H _]. exact H.
Defined.

(** ** The refresh of a static entry *)

(** X19.  [updateStaticCache] never throws.  With a 2xx answer that the
    cache stores it puts the answer, stamped with the time, under the
    request URL in the static namespace; with any other answer or none it
    leaves that entry as it was.  No other entry changes. *)
Theorem updateStaticCache_behaviour (request : Request) (env : Env) (w : World)
    (name u : string) :
  let w' := (updateStaticCache request env w).2 in
  (updateStaticCache request env w).1 = Ok tt
  ∧ entry_in CACHE_NAME (url request) (caches w')
    = match net env (url request) with
      | Some r => if ok r && Store.accepts r
                  then Some (with_timestamp r (now env))
                  else entry_in CACHE_NAME (url request) (caches w)
      | None => entry_in CACHE_NAME (url request) (caches w)
      end
  ∧ ((name = CACHE_NAME ∧ u = url request)
     ∨ entry_in name u (caches w') = entry_in name u (caches w)).
Proof.
  cbv zeta. rewrite updateStaticCache_run. cbn [fst snd].
  split; [reflexivity |].
  destruct (net env (url request)) as [r |]; [destruct (ok r) |];
    cbn [caches andb].
  - rewrite !entry_in_put, accepts_with_timestamp.
    split; [rewrite decide_True by auto; reflexivity |].
    case_decide; [left; assumption | right; reflexivity].
  - split; [reflexivity | right; reflexivity].
  - split; [reflexivity | right; reflexivity].
Qed.

(** ** Every intercepted request is answered *)

(** X20.  Whatever the fetch listener hands to [respondWith] resolves
    with a response: for every request it intercepts, every network and
    every storage, the chosen handler returns and does not throw. *)
Theorem every_intercepted_request_is_answered (request : Request)
    (handler : M Response) (env : Env) (w : World) :
  on_fetch request = Some handler →
  ∃ resp w', handler env w = (Ok resp, w').
Proof.
  unfold on_fetch. destruct (classify request) as [[| |] |];
    intros [= <-];
    [apply handleApiRequest_never_throws
    | apply handleStaticRequest_never_throws
    | apply handleDynamicRequest_never_throws].
Qed.

Lemma every_intercepted_request_is_answered_witness :
  ∃ resp w',
    handleStaticRequest Sample.styles (Sample.offline 1000) Sample.empty_world
    = (Ok resp, w').
Proof.
  exact (every_intercepted_request_is_answered Sample.styles
           (handleStaticRequest Sample.styles) (Sample.offline 1000)
           Sample.empty_world eq_refl).
Defined.

(** ** The fetch listener, once more *)

Lemma startsWith_occurs (s p : string) :
  Str.startsWith s p = true → Str.occurs_in p s.
Proof.
  intros H. apply startsWith_spec in H. destruct H as [post ->].
  exists "", post. reflexivity.
Qed.

(** X24.  The dynamic strategy is out of reach of web requests: a
    request whose URL starts with [http://] or [https://] is never
    classified dynamic, because such a URL contains the manifest entry
    ["/"]. *)
Theorem http_requests_are_never_dynamic (request : Request) :
  Str.startsWith (url request) "http://" = true
  ∨ Str.startsWith (url request) "https://" = true →
  classify request ≠ Some dynamic.
Proof.
  intros H. apply slash_never_dynamic.
  destruct H as [H | H]; apply startsWith_occurs in H.
  - apply (occurs_in_trans _ "http://"); [| exact H].
    exists "http:", "/". reflexivity.
  - apply (occurs_in_trans _ "https://"); [| exact H].
    exists "https:", "/". reflexivity.
Qed.

Lemma http_requests_are_never_dynamic_witness :
  classify Sample.avatar ≠ Some dynamic.
Proof.
  apply (http_requests_are_never_dynamic Sample.avatar).
  right. reflexivity.
Defined.

(** X25.  The fetch listener leaves a request alone exactly when its
    method is not GET, and it picks the api strategy exactly for GET
    requests whose host name contains [open-meteo.com]: the second host
    test of the listener selects nothing the first does not. *)
Theorem fetch_listener_dispatch (request : Request) :
  (on_fetch request = None ↔ method request ≠ "GET")
  ∧ (classify request = Some api ↔
     method request = "GET"
     ∧ Str.occurs_in "open-meteo.com" (hostname request)).
Proof.
  split; [apply on_fetch_passes_non_get |].
  unfold classify. rewrite is_api_host_first_test, <- includes_spec.
  destruct (String.eqb_spec (method request) "GET") as [He | Hne]; cbn [negb].
  - destruct (Str.includes (hostname request) "open-meteo.com").
    + tauto.
    + split; [| intros [_ H]; discriminate].
      destruct (is_static_url _); discriminate.
  - split; [discriminate | tauto].
Qed.

(** X26.  The install step never fails, for any network and storage, and
    it changes entries of the static namespace only. *)
Theorem install_never_fails (origin : string) (env : Env) (w : World)
    (name u : string) :
  (on_install origin env w).1 = Installed
  ∧ (name = CACHE_NAME
     ∨ entry_in name u (caches (on_install origin env w).2)
       = entry_in name u (caches w)).
Proof.
  split; [apply on_install_always_installed |].
  destruct (decide (name = CACHE_NAME)); [left; assumption | right].
  rewrite on_install_entries. rewrite decide_False by tauto. reflexivity.
Qed.
